(** * PhotonIQ: a shallow embedding of the backend and of the sketches

    The backend (backend/server.js) keeps three module-level caches
    ([latestReading], [weatherCache], [predictionCache]), reads
    newline-delimited JSON from a serial port, mirrors what it reads into a
    Firebase Realtime Database, refreshes a weather snapshot and a six-hour
    forecast on timers, and serves the caches over HTTP.

    The embedding follows the source statement by statement.

    - JavaScript strings are sequences of UTF-16 code units ([list N]).
    - JavaScript values are the inductive type [value]; an object is an
      association list of own properties.
    - Numbers are exact: a rational, NaN, or a signed infinity.  Binary64
      rounding, overflow and the sign of zero are not represented; the
      module [Binary64] repeats the arithmetic of the forecast on IEEE
      doubles, and the exact results are checked against it at concrete
      inputs.
    - An exception in an expression that only reads is the [Throw] case of
      [result].
    - [Date.now()], [new Date().getHours()] and the reply of the weather API
      are inputs of the functions that use them.
    - Console output is a list of structured events, oldest first.
    - A statement that changes the state and may throw is an [action]: it
      ends normally or abruptly, and leaves a state either way.
    - The Realtime Database is a record with the four paths the server
      writes.  Its client checks a value before writing it and throws on
      what it refuses; which values it takes is a parameter of the
      handlers.  A write that the client takes succeeds.

    The two Arduino sketches (arduino/solar_tracker/solar_tracker.ino with
    two servos, and the sketch with one servo) are the modules [Sketch] and
    [SingleAxis].

    - An [int] is 16 bits and a [long] 32 bits, as on the Uno: a value is an
      integer on which every operation wraps; division truncates.
    - [analogRead] and [millis()] are inputs of [loop]; what is written to
      a servo and printed on the serial line is its output.
    - The three [float]s of a report are not computed: the text that
      [Serial.print(x, n)] gives for them (a whole part and [n] decimals)
      is an input of the report. *)

From Stdlib Require Import List ZArith NArith QArith Qround Qabs Bool Lia Lqa.
From Stdlib Require Import Ascii String DecimalString Sorted Permutation.
From Stdlib Require Floats DecimalNat.
Import ListNotations.

Local Open Scope list_scope.
Local Open Scope Z_scope.
#[local] Set Warnings "-register-all".

(* ================================================================== *)
(** ** JavaScript data *)
(* ================================================================== *)

Module JS.

(** A string is its sequence of UTF-16 code units. *)
Definition jsstring := list N.

(** [lit] turns an ASCII literal into a JavaScript string.  The apostrophe
    stands for the double quote (code unit 34), so that JSON text can be
    written inside a literal. *)
Fixpoint lit (s : string) : jsstring :=
  match s with
  | EmptyString => []
  | String c r =>
      let n := N_of_ascii c in
      (if N.eqb n 39 then 34%N else n) :: lit r
  end.

Fixpoint str_eqb (a b : jsstring) : bool :=
  match a, b with
  | [], [] => true
  | x :: a', y :: b' => N.eqb x y && str_eqb a' b'
  | _, _ => false
  end.

(** WhiteSpace and LineTerminator code units (ECMAScript, used by
    [String.prototype.trim], [parseInt] and string-to-number conversion). *)
Definition is_space (c : N) : bool :=
  ((9 <=? c) && (c <=? 13) || (c =? 32) || (c =? 160) || (c =? 5760)
   || (8192 <=? c) && (c <=? 8202) || (c =? 8232) || (c =? 8233)
   || (c =? 8239) || (c =? 8287) || (c =? 12288) || (c =? 65279))%N.

Fixpoint trimStart (s : jsstring) : jsstring :=
  match s with
  | c :: r => if is_space c then trimStart r else s
  | [] => []
  end.

Definition trimEnd (s : jsstring) : jsstring := rev (trimStart (rev s)).

(** [s.trim()] *)
Definition trim (s : jsstring) : jsstring := trimEnd (trimStart s).

(** [s.startsWith(p)] *)
Fixpoint startsWith (s p : jsstring) {struct p} : bool :=
  match p, s with
  | [], _ => true
  | x :: p', y :: s' => N.eqb x y && startsWith s' p'
  | _ :: _, [] => false
  end.

(** *** Numbers *)

Inductive num : Type :=
| NaN
| Inf (negative : bool)
| Fin (q : Q).

Definition Qneg (q : Q) : bool := Qnum q <? 0.
Definition Qzero (q : Q) : bool := Qnum q =? 0.

Definition of_Z (z : Z) : num := Fin (inject_Z z).

(** [a * b] *)
Definition num_mul (a b : num) : num :=
  match a, b with
  | NaN, _ | _, NaN => NaN
  | Inf s, Inf t => Inf (xorb s t)
  | Inf s, Fin q | Fin q, Inf s =>
      if Qzero q then NaN else Inf (xorb s (Qneg q))
  | Fin p, Fin q => Fin (Qred (p * q))
  end.

(** [a - b] *)
Definition num_sub (a b : num) : num :=
  match a, b with
  | NaN, _ | _, NaN => NaN
  | Inf s, Inf t => if Bool.eqb s t then NaN else Inf s
  | Inf s, Fin _ => Inf s
  | Fin _, Inf t => Inf (negb t)
  | Fin p, Fin q => Fin (Qred (p - q))
  end.

(** [a / b].  A zero divisor is taken to be +0. *)
Definition num_div (a b : num) : num :=
  match a, b with
  | NaN, _ | _, NaN => NaN
  | Inf _, Inf _ => NaN
  | Inf s, Fin q => Inf (xorb s (Qneg q))
  | Fin _, Inf _ => Fin 0
  | Fin p, Fin q =>
      if Qzero q then (if Qzero p then NaN else Inf (Qneg p))
      else Fin (Qred (p / q))
  end.

(** [Math.max(a, b)] *)
Definition Math_max (a b : num) : num :=
  match a, b with
  | NaN, _ | _, NaN => NaN
  | Inf false, _ | _, Inf false => Inf false
  | Inf true, x | x, Inf true => x
  | Fin p, Fin q => if Qle_bool p q then Fin q else Fin p
  end.

(** [Math.round(a)]: the nearest integer, a tie going up. *)
Definition Math_round (a : num) : num :=
  match a with
  | Fin q => Fin (inject_Z (Qfloor (q + (1 # 2))))
  | other => other
  end.

(** [parseFloat(a.toFixed(3))].  [toFixed(3)] takes the integer [n] for
    which [n / 1000] is nearest to the magnitude (the larger of two), prints
    it with the sign in front and three decimals, and [parseFloat] reads the
    digits back.  From 1e21 on [toFixed] prints the number itself; a binary64
    that large is an integer, so rounding it to three decimals is the same
    and the cases are not told apart here.  NaN prints as "NaN" and an
    infinity as "Infinity", which [parseFloat] reads back. *)
Definition toFixed3 (a : num) : num :=
  match a with
  | Fin q =>
      let n := Qfloor (Qabs q * 1000 + (1 # 2)) in
      Fin (Qred (if Qneg q then - (n # 1000) else n # 1000))
  | other => other
  end.

(** *** Values *)

Inductive value : Type :=
| VUndefined
| VNull
| VBool (b : bool)
| VNum (n : num)
| VStr (s : jsstring)
| VArr (elems : list value)
| VObj (props : list (jsstring * value)).

Definition object := list (jsstring * value).

(** Own-property lookup; a missing property reads as [undefined]. *)
Fixpoint lookup (o : object) (k : jsstring) : value :=
  match o with
  | [] => VUndefined
  | (k', v) :: r => if str_eqb k' k then v else lookup r k
  end.

(** Own-property write: an existing property keeps its place. *)
Fixpoint assign (o : object) (k : jsstring) (v : value) : object :=
  match o with
  | [] => [(k, v)]
  | (k', v') :: r =>
      if str_eqb k' k then (k', v) :: r else (k', v') :: assign r k v
  end.

(** ToBoolean *)
Definition truthy (v : value) : bool :=
  match v with
  | VUndefined | VNull => false
  | VBool b => b
  | VNum NaN => false
  | VNum (Inf _) => true
  | VNum (Fin q) => negb (Qzero q)
  | VStr s => match s with [] => false | _ => true end
  | VArr _ | VObj _ => true
  end.

(** [a || b] *)
Definition or_else (a b : value) : value := if truthy a then a else b.

(** *** Exceptions *)

Inductive result (A : Type) : Type :=
| Ok (a : A)
| Throw (message : jsstring).
Arguments Ok {A} a.
Arguments Throw {A} message.

Definition bind {A B} (r : result A) (k : A -> result B) : result B :=
  match r with
  | Ok a => k a
  | Throw m => Throw m
  end.

Notation "'let*' x ':=' r 'in' k" := (bind r (fun x => k))
  (at level 10, x name, r at level 100, k at level 200).

(** [v.k] for a property name that no built-in prototype defines.  Reading a
    property of [undefined] or [null] is a TypeError; a primitive, and an
    array read at a name, have no such property. *)
Definition get (v : value) (k : jsstring) : result value :=
  match v with
  | VUndefined | VNull => Throw (lit "Cannot read properties of undefined")
  | VObj o => Ok (lookup o k)
  | VBool _ | VNum _ | VStr _ | VArr _ => Ok VUndefined
  end.

(** Decimal digits of a natural number, as code units. *)
Definition digits_of_nat (n : nat) : jsstring :=
  lit (NilZero.string_of_uint (Nat.to_uint n)).

(** The property [k] of [v] when reading it cannot throw: an own property
    of an object, [undefined] for anything else. *)
Definition lookup_in (v : value) (k : jsstring) : value :=
  match v with
  | VObj o => lookup o k
  | _ => VUndefined
  end.

(** [v[0]] *)
Definition get0 (v : value) : result value :=
  match v with
  | VUndefined | VNull => Throw (lit "Cannot read properties of undefined")
  | VObj o => Ok (lookup o (lit "0"))
  | VArr l => Ok (match l with x :: _ => x | [] => VUndefined end)
  | VStr s => Ok (match s with c :: _ => VStr [c] | [] => VUndefined end)
  | VBool _ | VNum _ => Ok VUndefined
  end.

(** [v.k = x] outside strict mode: only an object takes the property. *)
Definition set (v : value) (k : jsstring) (x : value) : value :=
  match v with
  | VObj o => VObj (assign o k x)
  | other => other
  end.

(** *** Reading numbers from text *)

(** The value of the code unit [c] as a digit of radix [r]. *)
Definition digit (r : Z) (c : N) : option Z :=
  let c := Z.of_N c in
  let d := if (48 <=? c) && (c <=? 57) then c - 48
           else if (97 <=? c) && (c <=? 122) then c - 87
           else if (65 <=? c) && (c <=? 90) then c - 55
           else r in
  if d <? r then Some d else None.

(** The longest prefix of radix-[r] digits, and what follows it. *)
Fixpoint take_digits (r : Z) (s : jsstring) : list Z * jsstring :=
  match s with
  | c :: s' =>
      match digit r c with
      | Some d => let (ds, rest) := take_digits r s' in (d :: ds, rest)
      | None => ([], s)
      end
  | [] => ([], [])
  end.

Definition digits_value (r : Z) (ds : list Z) : Z :=
  fold_left (fun acc d => acc * r + d) ds 0.

(** [m * 10^e] *)
Definition decimal (m e : Z) : Q :=
  if 0 <=? e then inject_Z (m * 10 ^ e)
  else Qred (m # Z.to_pos (10 ^ (- e))).

(** An optional sign character. *)
Definition take_sign (s : jsstring) : bool * jsstring :=
  match s with
  | c :: r =>
      if (c =? 45)%N then (true, r)
      else if (c =? 43)%N then (false, r)
      else (false, s)
  | [] => (false, s)
  end.

(** An optional ExponentPart: [e] or [E], an optional sign, digits. *)
Definition take_exponent (s : jsstring) : option (Z * jsstring) :=
  match s with
  | c :: r =>
      if ((c =? 101) || (c =? 69))%N then
        let (neg, r1) := take_sign r in
        match take_digits 10 r1 with
        | ([], _) => None
        | (ds, rest) =>
            let e := digits_value 10 ds in
            Some (if neg then - e else e, rest)
        end
      else Some (0, s)
  | [] => Some (0, [])
  end.

(** StrUnsignedDecimalLiteral other than [Infinity], to the end of [s]. *)
Definition unsigned_decimal (s : jsstring) : option Q :=
  let (ints, r1) := take_digits 10 s in
  let '(fracs, r2, dot) :=
    match r1 with
    | 46%N :: r => let (fs, r') := take_digits 10 r in (fs, r', true)
    | _ => ([], r1, false)
    end in
  match ints, fracs with
  | [], [] => None
  | _, _ =>
      match take_exponent r2 with
      | Some (e, []) =>
          Some (decimal (digits_value 10 (ints ++ fracs))
                        (e - Z.of_nat (List.length fracs)))
      | _ => None
      end
  end.

(** StringToNumber *)
Definition StringToNumber (s : jsstring) : num :=
  let t := trim s in
  let radix_literal (r : Z) (body : jsstring) :=
    match take_digits r body with
    | ((_ :: _) as ds, []) => Fin (inject_Z (digits_value r ds))
    | _ => NaN
    end in
  match t with
  | [] => Fin 0
  | 48%N :: (120%N | 88%N) :: body => radix_literal 16 body
  | 48%N :: (111%N | 79%N) :: body => radix_literal 8 body
  | 48%N :: (98%N | 66%N) :: body => radix_literal 2 body
  | _ =>
      let (neg, u) := take_sign t in
      if str_eqb u (lit "Infinity") then Inf neg
      else match unsigned_decimal u with
           | Some q => Fin (if neg then Qred (- q) else q)
           | None => NaN
           end
  end.

(** ToNumber.  An array converts through its string: the empty array and
    [[null]] print as the empty string, a one-element array prints as its
    element, and a longer one contains a comma, which no numeric literal
    has.  An object prints as "[object Object]". *)
Fixpoint ToNumber (v : value) : num :=
  match v with
  | VUndefined => NaN
  | VNull => Fin 0
  | VBool b => Fin (if b then 1 else 0)
  | VNum n => n
  | VStr s => StringToNumber s
  | VObj _ => NaN
  | VArr [] => Fin 0
  | VArr [x] =>
      match x with
      | VUndefined | VNull => Fin 0
      | VBool _ | VObj _ => NaN
      | VNum n => n
      | VStr s => StringToNumber s
      | VArr _ => ToNumber x
      end
  | VArr (_ :: _ :: _) => NaN
  end.

(** [parseInt(s)] with no radix argument; [None] is the argument
    [undefined], which reads as the text "undefined". *)
Definition parseInt (arg : option jsstring) : num :=
  match arg with
  | None => NaN
  | Some s =>
      let (neg, u) := take_sign (trimStart s) in
      let (r, body) :=
        if startsWith u (lit "0x") || startsWith u (lit "0X")
        then (16, skipn 2 u) else (10, u) in
      match take_digits r body with
      | ([], _) => NaN
      | (ds, _) =>
          let n := digits_value r ds in
          Fin (inject_Z (if neg then - n else n))
      end
  end.

End JS.

Import JS.

(* ================================================================== *)
(** ** [JSON.parse] *)
(* ================================================================== *)

Module JSON.

Inductive token : Type :=
| TLBrace | TRBrace | TLBracket | TRBracket | TColon | TComma
| TTrue | TFalse | TNull
| TNumber (q : Q)
| TString (s : jsstring).

(** Outcome of a scanner that recurses on what the previous token left. *)
Inductive outcome (A : Type) : Type :=
| Done (a : A)
| Fail
| OutOfFuel.
Arguments Done {A} a.
Arguments Fail {A}.
Arguments OutOfFuel {A}.

Definition is_ws (c : N) : bool :=
  ((c =? 32) || (c =? 9) || (c =? 10) || (c =? 13))%N.

Definition punctuation (c : N) : option token :=
  if (c =? 123)%N then Some TLBrace
  else if (c =? 125)%N then Some TRBrace
  else if (c =? 91)%N then Some TLBracket
  else if (c =? 93)%N then Some TRBracket
  else if (c =? 58)%N then Some TColon
  else if (c =? 44)%N then Some TComma
  else None.

Definition keyword (s : jsstring) : option (token * jsstring) :=
  if startsWith s (lit "true") then Some (TTrue, skipn 4 s)
  else if startsWith s (lit "false") then Some (TFalse, skipn 5 s)
  else if startsWith s (lit "null") then Some (TNull, skipn 4 s)
  else None.

Definition hex4 (a b c d : N) : option N :=
  match digit 16 a, digit 16 b, digit 16 c, digit 16 d with
  | Some x, Some y, Some z, Some w =>
      Some (Z.to_N (((x * 16 + y) * 16 + z) * 16 + w))
  | _, _, _, _ => None
  end.

(** The character a one-letter escape stands for: the quote, the
    backslash, the slash, and b f n r t. *)
Definition escape (e : N) : option N :=
  if ((e =? 34) || (e =? 92) || (e =? 47))%N then Some e
  else if (e =? 98)%N then Some 8%N
  else if (e =? 102)%N then Some 12%N
  else if (e =? 110)%N then Some 10%N
  else if (e =? 114)%N then Some 13%N
  else if (e =? 116)%N then Some 9%N
  else None.

(** The characters of a string literal after its opening quote, up to the
    closing one; [acc] holds the code units read so far, last first.  A
    backslash starts an escape ([u] with four hexadecimal digits gives the
    code unit); a control character is not allowed. *)
Fixpoint scan_string (s : jsstring) (acc : jsstring)
  : option (jsstring * jsstring) :=
  match s with
  | [] => None
  | c :: r =>
      if (c =? 34)%N then Some (rev acc, r)
      else if (c =? 92)%N then
        match r with
        | [] => None
        | e :: r1 =>
            if (e =? 117)%N then
              match r1 with
              | h1 :: h2 :: h3 :: h4 :: r2 =>
                  match hex4 h1 h2 h3 h4 with
                  | Some u => scan_string r2 (u :: acc)
                  | None => None
                  end
              | _ => None
              end
            else
              match escape e with
              | Some x => scan_string r1 (x :: acc)
              | None => None
              end
        end
      else if (c <? 32)%N then None
      else scan_string r (c :: acc)
  end.

(** A JSON number: an optional minus; a single 0, or digits that do not
    start with 0; an optional point with at least one digit; an optional
    exponent. *)
Definition scan_number (s : jsstring) : option (Q * jsstring) :=
  let (neg, r0) :=
    match s with
    | c :: r => if (c =? 45)%N then (true, r) else (false, s)
    | [] => (false, s)
    end in
  let (ints, r1) := take_digits 10 r0 in
  match ints with
  | [] => None
  | 0 :: _ :: _ => None
  | _ =>
      let frac :=
        match r1 with
        | c :: r =>
            if (c =? 46)%N then
              match take_digits 10 r with
              | ([], _) => None
              | (fs, r') => Some (fs, r')
              end
            else Some ([], r1)
        | [] => Some ([], r1)
        end in
      match frac with
      | None => None
      | Some (fracs, r2) =>
          match take_exponent r2 with
          | None => None
          | Some (e, rest) =>
              let m := digits_value 10 (ints ++ fracs) in
              Some (decimal (if neg then - m else m)
                            (e - Z.of_nat (List.length fracs)), rest)
          end
      end
  end.

Definition push_token (t : token) (r : outcome (list token))
  : outcome (list token) :=
  match r with
  | Done ts => Done (t :: ts)
  | other => other
  end.

Fixpoint tokens (fuel : nat) (s : jsstring) : outcome (list token) :=
  match fuel with
  | O => OutOfFuel
  | S fuel' =>
      match s with
      | [] => Done []
      | c :: r =>
          if is_ws c then tokens fuel' r
          else match punctuation c with
          | Some t => push_token t (tokens fuel' r)
          | None =>
              if (c =? 34)%N then
                match scan_string r [] with
                | Some (str, rest) => push_token (TString str) (tokens fuel' rest)
                | None => Fail
                end
              else match keyword s with
              | Some (t, rest) => push_token t (tokens fuel' rest)
              | None =>
                  match scan_number s with
                  | Some (q, rest) => push_token (TNumber q) (tokens fuel' rest)
                  | None => Fail
                  end
              end
          end
      end
  end.

(** Recursive descent over the tokens.  [elements] reads the values of an
    array after its first bracket, [members] the properties of an object;
    a repeated key overwrites the earlier value in place. *)
Fixpoint parse_value (fuel : nat) (ts : list token)
  : outcome (value * list token) :=
  match fuel with
  | O => OutOfFuel
  | S fuel' =>
      match ts with
      | TNull :: r => Done (VNull, r)
      | TTrue :: r => Done (VBool true, r)
      | TFalse :: r => Done (VBool false, r)
      | TNumber q :: r => Done (VNum (Fin q), r)
      | TString s :: r => Done (VStr s, r)
      | TLBracket :: TRBracket :: r => Done (VArr [], r)
      | TLBracket :: r =>
          match elements fuel' r [] with
          | Done (l, rest) => Done (VArr l, rest)
          | Fail => Fail
          | OutOfFuel => OutOfFuel
          end
      | TLBrace :: TRBrace :: r => Done (VObj [], r)
      | TLBrace :: r =>
          match members fuel' r [] with
          | Done (o, rest) => Done (VObj o, rest)
          | Fail => Fail
          | OutOfFuel => OutOfFuel
          end
      | _ => Fail
      end
  end
with elements (fuel : nat) (ts : list token) (acc : list value)
  : outcome (list value * list token) :=
  match fuel with
  | O => OutOfFuel
  | S fuel' =>
      match parse_value fuel' ts with
      | Done (v, TComma :: r) => elements fuel' r (v :: acc)
      | Done (v, TRBracket :: r) => Done (rev (v :: acc), r)
      | Done _ => Fail
      | Fail => Fail
      | OutOfFuel => OutOfFuel
      end
  end
with members (fuel : nat) (ts : list token) (acc : object)
  : outcome (object * list token) :=
  match fuel with
  | O => OutOfFuel
  | S fuel' =>
      match ts with
      | TString k :: TColon :: r =>
          match parse_value fuel' r with
          | Done (v, TComma :: r') => members fuel' r' (assign acc k v)
          | Done (v, TRBrace :: r') => Done (assign acc k v, r')
          | Done _ => Fail
          | Fail => Fail
          | OutOfFuel => OutOfFuel
          end
      | _ => Fail
      end
  end.

(** [JSON.parse(text)]: one value and nothing after it, or a SyntaxError. *)
Definition parse (text : jsstring) : result value :=
  match tokens (S (List.length text)) text with
  | Done ts =>
      match parse_value (2 * List.length ts + 1) ts with
      | Done (v, []) => Ok v
      | _ => Throw (lit "Unexpected token in JSON")
      end
  | _ => Throw (lit "Unexpected token in JSON")
  end.

End JSON.

(* ================================================================== *)
(** ** Arrays and the Realtime Database *)
(* ================================================================== *)

Module Firebase.

(** [a - b] on values, as a comparator writes it. *)
Definition minus (a b : value) : num := num_sub (ToNumber a) (ToNumber b).

(** A comparator result counts as positive, and the pair is swapped, only
    when it is a number above zero; NaN counts as zero. *)
Definition positive (n : num) : bool :=
  match n with
  | NaN => false
  | Inf negative => negb negative
  | Fin q => 0 <? Qnum q
  end.

Section Sort.
Context {A : Type}.
Variable cmp : A -> A -> result num.

Fixpoint insert (x : A) (l : list A) : result (list A) :=
  match l with
  | [] => Ok [x]
  | y :: r =>
      let* c := cmp x y in
      if positive c then (let* r' := insert x r in Ok (y :: r'))
      else Ok (x :: l)
  end.

(** A stable sort by [cmp]; it stops at the first comparison that
    throws.  (When [cmp] is not a consistent order the result of
    [Array.prototype.sort] is left to the engine; insertion from the right
    is what is taken here.) *)
Fixpoint sort_by (l : list A) : result (list A) :=
  match l with
  | [] => Ok []
  | x :: r => let* r' := sort_by r in insert x r'
  end.
End Sort.

Definition is_undefined (v : value) : bool :=
  match v with VUndefined => true | _ => false end.

(** [l.sort(cmp)]: the elements other than [undefined] in the order of
    [cmp], equal ones in their old order, then the [undefined] ones. *)
Definition Array_sort (cmp : value -> value -> result num) (l : list value)
  : result (list value) :=
  let* sorted := sort_by cmp (filter (fun v => negb (is_undefined v)) l) in
  Ok (sorted ++ filter is_undefined l).

(** The four paths under [solarData].  A path without data holds [null];
    the children of [history] are listed in the order of their push keys,
    which is the order in which they were pushed. *)
Record database : Type := {
  live : value;
  history : list value;
  weather : value;
  prediction : value
}.

Definition empty : database :=
  {| live := VNull; history := []; weather := VNull; prediction := VNull |}.

(** [db.ref('solarData/live').set(v)] and its siblings *)
Definition set_live (v : value) (d : database) : database :=
  {| live := v; history := history d; weather := weather d;
     prediction := prediction d |}.
Definition set_weather (v : value) (d : database) : database :=
  {| live := live d; history := history d; weather := v;
     prediction := prediction d |}.
Definition set_prediction (v : value) (d : database) : database :=
  {| live := live d; history := history d; weather := weather d;
     prediction := v |}.

(** [db.ref('solarData/history').push(v)] *)
Definition push_history (v : value) (d : database) : database :=
  {| live := live d; history := history d ++ [v]; weather := weather d;
     prediction := prediction d |}.

(** A key the database allows: not empty, and free of control characters
    and of the characters . # $ / and the two square brackets. *)
Definition valid_key (k : jsstring) : bool :=
  match k with
  | [] => false
  | _ =>
      forallb (fun c => negb ((c <? 32) || (c =? 127) || (c =? 46)
                              || (c =? 35) || (c =? 36) || (c =? 47)
                              || (c =? 91) || (c =? 93))%N) k
  end.

(** What the client of the database takes, limits on size and depth aside:
    a value without [undefined], NaN or an infinity, whose keys are all
    allowed.  This is the check that the examples run the server with. *)
Fixpoint storable (v : value) : bool :=
  match v with
  | VUndefined => false
  | VNum NaN | VNum (Inf _) => false
  | VNull | VBool _ | VNum (Fin _) | VStr _ => true
  | VArr l =>
      (fix all (l : list value) : bool :=
         match l with
         | [] => true
         | x :: r => storable x && all r
         end) l
  | VObj o =>
      (fix all (o : list (jsstring * value)) : bool :=
         match o with
         | [] => true
         | (k, x) :: r => valid_key k && storable x && all r
         end) o
  end.

(** The value a child is ordered by under [orderByChild(k)]: its property
    [k], or null when it has none. *)
Definition child (k : jsstring) (v : value) : value :=
  match v with
  | VObj o => match lookup o k with VUndefined => VNull | x => x end
  | _ => VNull
  end.

(** Order of the values of a child key: null, false, true, numbers
    ascending, strings, objects. *)
Definition rank (v : value) : Z :=
  match v with
  | VUndefined | VNull => 0
  | VBool false => 1
  | VBool true => 2
  | VNum _ => 3
  | VStr _ => 4
  | VArr _ | VObj _ => 5
  end.

Fixpoint str_compare (a b : jsstring) : comparison :=
  match a, b with
  | [], [] => Eq
  | [], _ :: _ => Lt
  | _ :: _, [] => Gt
  | x :: a', y :: b' =>
      match N.compare x y with
      | Eq => str_compare a' b'
      | c => c
      end
  end.

(** [true] when [a] sorts strictly after [b] by value; equal values keep the
    order of their keys. *)
Definition after (a b : value) : bool :=
  if rank a =? rank b then
    match a, b with
    | VNum x, VNum y => positive (num_sub x y)
    | VStr x, VStr y => match str_compare x y with Gt => true | _ => false end
    | _, _ => false
    end
  else rank b <? rank a.

(** Comparators for children paired with the rank of their key: by the
    child [k], and by key. *)
Definition by_child (k : jsstring) (a b : nat * value) : result num :=
  Ok (if after (child k (snd a)) (child k (snd b)) then Fin 1 else Fin 0).

Definition by_key (a b : nat * value) : result num :=
  Ok (if (fst b <? fst a)%nat then Fin 1 else Fin 0).

Definition last_n {A} (n : nat) (l : list A) : list A :=
  skipn (List.length l - n) l.

(** [limitToLast(limit)] accepts a positive integer and throws on anything
    else.  ([parseInt] hands it a finite number or NaN.) *)
Definition limitToLast (limit : num) : result nat :=
  match limit with
  | Fin q =>
      if Qeq_bool (inject_Z (Qfloor q)) q && (0 <? Qnum q)
      then Ok (Z.to_nat (Qfloor q))
      else Throw (lit "limitToLast: First argument must be a positive integer.")
  | _ => Throw (lit "limitToLast: First argument must be a positive integer.")
  end.

(** [Object.values(snapshot.val() || {})] for the snapshot of
    [ref.orderByChild(k).limitToLast(n).once('value')]: the [n] children
    that come last by the child [k], listed in key order. *)
Definition query_values (k : jsstring) (n : nat) (children : list value)
  : result (list value) :=
  let keyed := combine (seq 0 (List.length children)) children in
  let* ordered := sort_by (by_child k) keyed in
  let* selected := sort_by by_key (last_n n ordered) in
  Ok (map snd selected).

End Firebase.

(* ================================================================== *)
(** ** backend/server.js *)
(* ================================================================== *)

Module Server.

Import Firebase.

(** What the server prints, with the values it formats. *)
Inductive event : Type :=
| Log_arduino (text : value)
| Log_reading (power angleH angleV dustAlert : value)
| Log_weather (temp clouds : value)
| Error_weather (message : jsstring)
| Log_prediction (predicted_power : value).

Record state : Type := {
  latestReading : value;
  weatherCache : value;
  predictionCache : value;
  db : database;
  console : list event
}.

Definition with_latestReading (v : value) (s : state) : state :=
  {| latestReading := v; weatherCache := weatherCache s;
     predictionCache := predictionCache s; db := db s;
     console := console s |}.
Definition with_weatherCache (v : value) (s : state) : state :=
  {| latestReading := latestReading s; weatherCache := v;
     predictionCache := predictionCache s; db := db s;
     console := console s |}.
Definition with_predictionCache (v : value) (s : state) : state :=
  {| latestReading := latestReading s; weatherCache := weatherCache s;
     predictionCache := v; db := db s; console := console s |}.
Definition with_db (f : database -> database) (s : state) : state :=
  {| latestReading := latestReading s; weatherCache := weatherCache s;
     predictionCache := predictionCache s; db := f (db s);
     console := console s |}.
Definition log (e : event) (s : state) : state :=
  {| latestReading := latestReading s; weatherCache := weatherCache s;
     predictionCache := predictionCache s; db := db s;
     console := console s ++ [e] |}.

Definition number (q : Q) : value := VNum (Fin q).
Definition integer (z : Z) : value := VNum (of_Z z).

(** The module-level initialisers (lines 49-57); [now] is [Date.now()] at
    load time. *)
Definition initial (now : Z) : state :=
  {| latestReading :=
       VObj [ (lit "voltage", integer 0); (lit "current", integer 0);
              (lit "power", integer 0);
              (lit "angleH", integer 90); (lit "angleV", integer 90);
              (lit "light", integer 0); (lit "dustAlert", VBool false);
              (lit "dustRaw", integer 0);
              (lit "timestamp", integer now) ];
     weatherCache := VObj [];
     predictionCache :=
       VObj [ (lit "predicted_power", integer 0);
              (lit "confidence", integer 0);
              (lit "forecast", VArr []) ];
     db := Firebase.empty;
     console := [] |}.

(** *** Statements that change the state and may throw *)

(** A run of statements ends normally with a value, or abruptly with the
    message of what was thrown; either way it leaves a state behind. *)
Inductive completion (A : Type) : Type :=
| Normal (a : A) (s : state)
| Abrupt (message : jsstring) (s : state).
Arguments Normal {A} a s.
Arguments Abrupt {A} message s.

Definition action (A : Type) : Type := state -> completion A.

Definition ret {A} (a : A) : action A := fun s => Normal a s.

Definition and_then {A B} (m : action A) (k : A -> action B) : action B :=
  fun s =>
    match m s with
    | Normal a s' => k a s'
    | Abrupt message s' => Abrupt message s'
    end.

Notation "'let!' x ':=' m 'in' k" := (and_then m (fun x => k))
  (at level 10, x name, m at level 100, k at level 200).

(** An expression that only reads. *)
Definition eval {A} (r : result A) : action A :=
  fun s => match r with Ok a => Normal a s | Throw m => Abrupt m s end.

(** An assignment to a module-level variable, or a console call. *)
Definition update (f : state -> state) : action unit :=
  fun s => Normal tt (f s).

(** The value of a module-level variable. *)
Definition current {A} (f : state -> A) : action A :=
  fun s => Normal (f s) s.

(** [try { body } catch (e) { handler(e.message) }] *)
Definition try_catch {A} (body : action A) (handler : jsstring -> action A)
  : action A :=
  fun s =>
    match body s with
    | Normal a s' => Normal a s'
    | Abrupt message s' => handler message s'
    end.

(** The state a completion leaves. *)
Definition final {A} (c : completion A) : state :=
  match c with Normal _ s | Abrupt _ s => s end.

(** The exit the serial handler takes for a line. *)
Inductive verdict : Type :=
| NotJson                        (* line 81: does not start with a brace *)
| Malformed                      (* line 106: the catch block *)
| DeviceMessage (text : value)   (* line 89: logged and skipped *)
| Accepted (data : value).       (* line 104: stored as the reading *)

(** What the weather API call comes back with. *)
Inductive http_reply : Type :=
| NetworkError (message : jsstring)
| Response (status : Z) (data : value).

(** [await axios.get(...)]: rejects when there is no response or the status
    is outside 2xx, otherwise resolves to the response, whose [data] is
    returned here. *)
Definition axios_get (r : http_reply) : result value :=
  match r with
  | NetworkError m => Throw m
  | Response st data =>
      if (200 <=? st) && (st <? 300) then Ok data
      else Throw (lit "Request failed with status code")
  end.

(** [v.a || v.b] *)
Definition get_or (v : value) (a b : jsstring) : result value :=
  let* x := get v a in
  if truthy x then Ok x else get v b.

Definition hourlyFactor : list Q :=
  [ 0; 0; 0; 0; 0; 5 # 100;
    1 # 10; 2 # 10; 35 # 100; 55 # 100; 75 # 100; 9 # 10;
    1; 95 # 100; 85 # 100; 7 # 10; 5 # 10; 3 # 10;
    1 # 10; 5 # 100; 0; 0; 0; 0 ]%Q.

(** [a[i]] for an array of numbers [a] and an integer [i] *)
Definition index (a : list Q) (i : Z) : value :=
  if i <? 0 then VUndefined
  else match nth_error a (Z.to_nat i) with
       | Some q => number q
       | None => VUndefined
       end.

(** The decimal text of an integer. *)
Definition Z_to_string (z : Z) : jsstring :=
  if z <? 0 then lit "-" ++ digits_of_nat (Z.to_nat (- z))
  else digits_of_nat (Z.to_nat z).

(** [for (let i = from; i <= to; i++) body], threading what the body
    builds. *)
Fixpoint for_loop {A} (count : nat) (i : Z) (body : Z -> A -> A) (acc : A) : A :=
  match count with
  | O => acc
  | S count' => for_loop count' (i + 1) body (body i acc)
  end.

Definition for_upto {A} (from to : Z) (body : Z -> A -> A) (acc : A) : A :=
  for_loop (Z.to_nat (to - from + 1)) from body acc.

(** The object literal that [fetchWeather] assigns to [weatherCache], for
    the payload [data]: property reads, which throw on what is not there. *)
Definition weather_snapshot (data : value) (now : Z) : result value :=
  let* main := get data (lit "main") in
  let* temp := get main (lit "temp") in
  let* main := get data (lit "main") in
  let* humidity := get main (lit "humidity") in
  let* clouds := get data (lit "clouds") in
  let* clouds := get clouds (lit "all") in
  let* weather := get data (lit "weather") in
  let* weather0 := get0 weather in
  let* description := get weather0 (lit "description") in
  let* wind := get data (lit "wind") in
  let* windSpeed := get wind (lit "speed") in
  Ok (VObj [ (lit "temp", temp); (lit "humidity", humidity);
             (lit "clouds", clouds); (lit "description", description);
             (lit "windSpeed", windSpeed); (lit "timestamp", integer now) ]).

(** Lines 147 to 183 of [runPrediction], up to the object literal that is
    assigned to [predictionCache]: they read [weatherCache] and
    [latestReading] and change nothing.  [hour] is [new Date().getHours()]
    and [now] is [Date.now()]. *)
Definition prediction (weatherCache latestReading : value) (hour now : Z)
  : result value :=
  let* clouds := get weatherCache (lit "clouds") in
  let cloudFactor :=
    num_sub (Fin 1)
      (num_mul (num_div (ToNumber (or_else clouds (integer 0))) (Fin 100))
               (Fin (7 # 10))) in
  let* power := get latestReading (lit "power") in
  let basePower := or_else power (integer 0) in
  let* light := get latestReading (lit "light") in
  let lightPct := num_div (ToNumber (or_else light (integer 0))) (Fin 100) in
  let forecast :=
    for_upto 1 6
      (fun i forecast =>
         let futureHour := Z.rem (hour + i) 24 in
         let predicted :=
           num_mul
             (num_mul
                (num_mul (ToNumber basePower)
                         (ToNumber (index hourlyFactor futureHour)))
                cloudFactor)
             (Fin (11 # 10)) in
         forecast ++
           [ VObj [ (lit "hour", integer futureHour);
                    (lit "label", VStr (Z_to_string futureHour ++ lit ":00"));
                    (lit "predicted",
                     VNum (Math_max (Fin 0) (toFixed3 predicted))) ] ])
      [] in
  let nextHour := Z.rem (hour + 1) 24 in
  let nextPower :=
    num_mul
      (num_mul (ToNumber basePower) (ToNumber (index hourlyFactor nextHour)))
      cloudFactor in
  Ok (VObj [ (lit "predicted_power",
              VNum (Math_max (Fin 0) (toFixed3 nextPower)));
             (lit "confidence",
              VNum (Math_round (num_mul cloudFactor (Fin 90))));
             (lit "peak_hour", integer 12);
             (lit "forecast", VArr forecast);
             (lit "timestamp", integer now) ]).

Section Client.

(** The database client checks a value before it writes it and throws on
    what it refuses (a value with [undefined], NaN or an infinity in it, or
    with a key it does not allow).  Which values it takes is left open:
    [client_accepts] is any such check. *)
Variable client_accepts : value -> bool.

(** [db.ref(path).set(v)] and [db.ref(path).push(v)], with [write] the
    change that the call makes to the database. *)
Definition db_call (write : value -> database -> database) (v : value)
  : action unit :=
  fun s =>
    if client_accepts v then Normal tt (with_db (write v) s)
    else Abrupt (lit "value argument contains an invalid value") s.

(** *** initSerial: the handler of the parser's ['data'] event *)

Definition initSerial_onData_try (line : jsstring) (now : Z) : action verdict :=
  let! data := eval (JSON.parse line) in
  let! flag := eval (get_or data (lit "error") (lit "status")) in
  if truthy flag then
    let! text := eval (get_or data (lit "error") (lit "status")) in
    let! _ := update (log (Log_arduino text)) in
    ret (DeviceMessage text)
  else
    let data := set data (lit "timestamp") (integer now) in
    let! _ := update (with_latestReading data) in
    let! _ := db_call set_live data in
    let! _ := db_call push_history data in
    let! power := eval (get data (lit "power")) in
    let! angleH := eval (get data (lit "angleH")) in
    let! angleV := eval (get data (lit "angleV")) in
    let! dustAlert := eval (get data (lit "dustAlert")) in
    let! _ := update (log (Log_reading power angleH angleV dustAlert)) in
    ret (Accepted data).

(** [parser.on('data', (line) => ...)]; [now] is [Date.now()] when the line
    arrives.  The catch block is empty: what the try block did before it
    threw stays done. *)
Definition initSerial_onData (line : jsstring) (now : Z) (s : state)
  : verdict * state :=
  let line := trim line in
  if negb (startsWith line (lit "{")) then (NotJson, s)
  else
    match initSerial_onData_try line now s with
    | Normal v s' => (v, s')
    | Abrupt _ s' => (Malformed, s')
    end.

(** *** fetchWeather *)

Definition fetchWeather_try (reply : http_reply) (now : Z) : action unit :=
  let! data := eval (axios_get reply) in
  let! cache := eval (weather_snapshot data now) in
  let! _ := update (with_weatherCache cache) in
  let! cache := current weatherCache in
  let! _ := db_call set_weather cache in
  let! cache := current weatherCache in
  let! temp := eval (get cache (lit "temp")) in
  let! clouds := eval (get cache (lit "clouds")) in
  update (log (Log_weather temp clouds)).

(** [async function fetchWeather()].  [reply] is what the request settles
    with, [now] the [Date.now()] of that moment, and the action runs in the
    state of that moment; a normal completion is a promise that resolves,
    an abrupt one a promise that rejects. *)
Definition fetchWeather (reply : http_reply) (now : Z) : action unit :=
  try_catch (fetchWeather_try reply now)
            (fun message => update (log (Error_weather message))).

(** *** runPrediction *)

(** What the job throws at its last statements, the write and the log, it
    throws with the cache already replaced. *)
Definition runPrediction (hour now : Z) : action unit :=
  let! weather := current weatherCache in
  let! reading := current latestReading in
  let! cache := eval (prediction weather reading hour now) in
  let! _ := update (with_predictionCache cache) in
  let! cache := current predictionCache in
  let! _ := db_call set_prediction cache in
  let! cache := current predictionCache in
  let! predicted_power := eval (get cache (lit "predicted_power")) in
  update (log (Log_prediction predicted_power)).

(** *** The event loop *)

(** What the process reacts to once it is listening: a line from the serial
    parser, the settling of a weather request, a tick of the prediction
    timer.  A step gives the state that the reaction leaves, also when the
    reaction ends abruptly. *)
Inductive input : Type :=
| Line (line : jsstring) (now : Z)
| WeatherReply (reply : http_reply) (now : Z)
| PredictionTick (hour now : Z).

Definition step (i : input) (s : state) : state :=
  match i with
  | Line line now => snd (initSerial_onData line now s)
  | WeatherReply reply now => final (fetchWeather reply now s)
  | PredictionTick hour now => final (runPrediction hour now s)
  end.

Definition run (inputs : list input) (s : state) : state :=
  fold_left (fun s i => step i s) inputs s.

End Client.

(** *** REST endpoints *)

Record response : Type := { status : Z; body : value }.

(** [res.json({ success: true, data })] *)
Definition success (data : value) : response :=
  {| status := 200;
     body := VObj [ (lit "success", VBool true); (lit "data", data) ] |}.

Definition GET_weather (s : state) : response := success (weatherCache s).

Definition GET_dashboard (s : state) : response :=
  success (VObj [ (lit "live", latestReading s);
                  (lit "weather", weatherCache s);
                  (lit "prediction", predictionCache s) ]).

(** [parseInt(req.query.limit) || 50] *)
Definition limit_of (query_limit : option jsstring) : value :=
  or_else (VNum (parseInt query_limit)) (integer 50).

(** [(a, b) => a.timestamp - b.timestamp] *)
Definition by_timestamp (a b : value) : result num :=
  let* x := get a (lit "timestamp") in
  let* y := get b (lit "timestamp") in
  Ok (minus x y).

Definition GET_history_try (query_limit : option jsstring) (s : state)
  : result response :=
  let limit := limit_of query_limit in
  let* n := limitToLast (ToNumber limit) in
  let* values := query_values (lit "timestamp") n (history (db s)) in
  let* history := Array_sort by_timestamp values in
  Ok (success (VArr history)).

(** [app.get('/api/history', ...)]; [query_limit] is [req.query.limit]. *)
Definition GET_history (query_limit : option jsstring) (s : state) : response :=
  match GET_history_try query_limit s with
  | Ok r => r
  | Throw message =>
      {| status := 500;
         body := VObj [ (lit "success", VBool false);
                        (lit "error", VStr message) ] |}
  end.

End Server.

(* ================================================================== *)
(** ** arduino/solar_tracker/solar_tracker.ino *)
(* ================================================================== *)

(** The sketch that writes the lines the server reads.  The board is the
    Uno: an [int] has 16 bits, a [long] 32, and [analogRead] gives a value
    from 0 to 1023.  The voltage, current and power that [reportData]
    simulates are floats; what [Serial.print] shows of them is an input
    here. *)
Module Sketch.

(** The value an [int], a [long], an [unsigned long] holds after an
    operation whose exact result is [z]. *)
Definition int16 (z : Z) : Z := (z + 32768) mod 65536 - 32768.
Definition int32 (z : Z) : Z := (z + 2147483648) mod 4294967296 - 2147483648.
Definition uint32 (z : Z) : Z := z mod 4294967296.

Definition TOLERANCE : Z := 30.
Definition SERVO_STEP : Z := 1.
Definition SERVO_H_MIN : Z := 0.
Definition SERVO_H_MAX : Z := 180.
Definition SERVO_V_MIN : Z := 60.
Definition SERVO_V_MAX : Z := 120.
Definition TRACK_INTERVAL : Z := 500.
Definition REPORT_INTERVAL : Z := 2000.
Definition DUST_THRESHOLD : Z := 200.

(** The macros [abs] and [constrain] of Arduino.h, on [int]. *)
Definition abs (x : Z) : Z := if x >? 0 then x else int16 (- x).

Definition constrain (amt low high : Z) : Z :=
  if amt <? low then low else if amt >? high then high else amt.

(** [map(x, in_min, in_max, out_min, out_max)], computed on [long]; the
    quotient of C truncates toward zero. *)
Definition map (x in_min in_max out_min out_max : Z) : Z :=
  int32 (int32 (Z.quot (int32 (int32 (x - in_min) * int32 (out_max - out_min)))
                       (int32 (in_max - in_min)))
         + out_min).

Record state : Type := {
  angleH : Z;
  angleV : Z;
  lastTrackTime : Z;
  lastReportTime : Z
}.

(** [angleH = 90], [angleV = 90] and the two times 0. *)
Definition initial : state :=
  {| angleH := 90; angleV := 90; lastTrackTime := 0; lastReportTime := 0 |}.

(** What one round of analog reads gives: the four light sensors and the
    dust sensor. *)
Record reads : Type := {
  LDR_TOP_LEFT : Z;
  LDR_TOP_RIGHT : Z;
  LDR_BOT_LEFT : Z;
  LDR_BOT_RIGHT : Z;
  DUST_PIN : Z
}.

(** What the sketch does to the outside: a servo is told an angle, a line
    goes out on the serial port. *)
Inductive output : Type :=
| ServoH (angle : Z)
| ServoV (angle : Z)
| Println (text : jsstring).

(** *** trackSun *)

Definition trackSun (r : reads) (s : state) : state * list output :=
  let tl := LDR_TOP_LEFT r in
  let tr := LDR_TOP_RIGHT r in
  let bl := LDR_BOT_LEFT r in
  let br := LDR_BOT_RIGHT r in
  let top := int16 (Z.quot (int16 (tl + tr)) 2) in
  let bot := int16 (Z.quot (int16 (bl + br)) 2) in
  let vertError := int16 (top - bot) in
  let left := int16 (Z.quot (int16 (tl + bl)) 2) in
  let right := int16 (Z.quot (int16 (tr + br)) 2) in
  let horizError := int16 (left - right) in
  let '(s, out_v) :=
    if abs vertError >? TOLERANCE then
      let angle :=
        if vertError >? 0
        then constrain (int16 (angleV s + SERVO_STEP)) SERVO_V_MIN SERVO_V_MAX
        else constrain (int16 (angleV s - SERVO_STEP)) SERVO_V_MIN SERVO_V_MAX in
      ({| angleH := angleH s; angleV := angle;
          lastTrackTime := lastTrackTime s;
          lastReportTime := lastReportTime s |},
       [ServoV angle])
    else (s, []) in
  let '(s, out_h) :=
    if abs horizError >? TOLERANCE then
      let angle :=
        if horizError >? 0
        then constrain (int16 (angleH s + SERVO_STEP)) SERVO_H_MIN SERVO_H_MAX
        else constrain (int16 (angleH s - SERVO_STEP)) SERVO_H_MIN SERVO_H_MAX in
      ({| angleH := angle; angleV := angleV s;
          lastTrackTime := lastTrackTime s;
          lastReportTime := lastReportTime s |},
       [ServoH angle])
    else (s, []) in
  (s, out_v ++ out_h).

(** *** reportData *)

(** [Serial.print(n)] of an [int]: a minus sign for a negative one, then
    the decimal digits. *)
Definition print_int (z : Z) : jsstring :=
  if z <? 0 then lit "-" ++ digits_of_nat (Z.to_nat (- z))
  else digits_of_nat (Z.to_nat z).

(** What [Serial.print(x, digits)] shows of a float that is finite and not
    negative: the decimal digits of the whole part, a point, and one digit
    for each decimal. *)
Record printed : Type := { whole : nat; decimals : list nat }.

Definition print_float (x : printed) : jsstring :=
  digits_of_nat (whole x) ++ lit "."
  ++ List.map (fun d => (48 + N.of_nat d)%N) (decimals x).

(** The three floats of [reportData] as they are printed, with 2, 2 and 3
    decimals. *)
Record simulated : Type := {
  busVoltage : printed;
  current_mA : printed;
  power_W : printed
}.

Definition shown (digits : nat) (x : printed) : bool :=
  (List.length (decimals x) =? digits)%nat
  && forallb (fun d => (d <? 10)%nat) (decimals x).

Definition shown_all (f : simulated) : bool :=
  shown 2 (busVoltage f) && shown 2 (current_mA f) && shown 3 (power_W f).

Definition ldrAvg (r : reads) : Z :=
  int16 (Z.quot
           (int16 (int16 (int16 (LDR_TOP_LEFT r + LDR_TOP_RIGHT r)
                          + LDR_BOT_LEFT r)
                   + LDR_BOT_RIGHT r))
           4).

Definition lightPct (r : reads) : Z := int16 (map (ldrAvg r) 0 1023 0 100).

Definition dustAlert (r : reads) : bool := DUST_PIN r <? DUST_THRESHOLD.

(** The text that the prints of [reportData] put together, up to the line
    end that [println] adds. *)
Definition report (r : reads) (f : simulated) (s : state) : jsstring :=
  lit "{"
  ++ lit "'voltage':" ++ print_float (busVoltage f)
  ++ lit ",'current':" ++ print_float (current_mA f)
  ++ lit ",'power':" ++ print_float (power_W f)
  ++ lit ",'angleH':" ++ print_int (angleH s)
  ++ lit ",'angleV':" ++ print_int (angleV s)
  ++ lit ",'light':" ++ print_int (lightPct r)
  ++ lit ",'dustAlert':" ++ (if dustAlert r then lit "true" else lit "false")
  ++ lit ",'dustRaw':" ++ print_int (DUST_PIN r)
  ++ lit "}".

Definition reportData (r : reads) (f : simulated) (s : state) : list output :=
  [Println (report r f s)].

(** *** loop *)

(** One pass of [loop]; [now] is [millis()], [tracked] and [reported] are
    the analog reads that [trackSun] and [reportData] make when they
    run. *)
Definition loop (now : Z) (tracked reported : reads) (f : simulated)
  (s : state) : state * list output :=
  let '(s, out_t) :=
    if uint32 (now - lastTrackTime s) >=? TRACK_INTERVAL then
      trackSun tracked
        {| angleH := angleH s; angleV := angleV s;
           lastTrackTime := now; lastReportTime := lastReportTime s |}
    else (s, []) in
  let '(s, out_r) :=
    if uint32 (now - lastReportTime s) >=? REPORT_INTERVAL then
      let s := {| angleH := angleH s; angleV := angleV s;
                  lastTrackTime := lastTrackTime s;
                  lastReportTime := now |} in
      (s, reportData reported f s)
    else (s, []) in
  (s, out_t ++ out_r).

(** What the passes of [loop] meet, one after the other, and all that the
    sketch does over them. *)
Record pass : Type := {
  millis : Z;
  tracked : reads;
  reported : reads;
  floats : simulated
}.

Definition run (passes : list pass) (s : state) : state * list output :=
  fold_left
    (fun acc p =>
       let '(s', out) :=
         loop (millis p) (tracked p) (reported p) (floats p) (fst acc) in
       (s', snd acc ++ out))
    passes (s, []).

(** The line the server's parser hands to its handler for a [println]:
    the parser splits at the line feed, the carriage return stays. *)
Definition received (text : jsstring) : jsstring := text ++ [13%N].

(** *** Vocabulary *)

(** The reads are what the converter gives: 10 bits. *)
Definition analog (r : reads) : Prop :=
  0 <= LDR_TOP_LEFT r <= 1023 /\ 0 <= LDR_TOP_RIGHT r <= 1023 /\
  0 <= LDR_BOT_LEFT r <= 1023 /\ 0 <= LDR_BOT_RIGHT r <= 1023 /\
  0 <= DUST_PIN r <= 1023.

(** Both angles are inside the limits of their servos. *)
Definition within_limits (s : state) : Prop :=
  SERVO_H_MIN <= angleH s <= SERVO_H_MAX /\
  SERVO_V_MIN <= angleV s <= SERVO_V_MAX.

(** A servo is told an angle inside its limits. *)
Definition allowed (o : output) : Prop :=
  match o with
  | ServoH a => SERVO_H_MIN <= a <= SERVO_H_MAX
  | ServoV a => SERVO_V_MIN <= a <= SERVO_V_MAX
  | Println _ => True
  end.

(** The exact differences that [trackSun] steers by. *)
Definition vertError (r : reads) : Z :=
  (LDR_TOP_LEFT r + LDR_TOP_RIGHT r) / 2
  - (LDR_BOT_LEFT r + LDR_BOT_RIGHT r) / 2.

Definition horizError (r : reads) : Z :=
  (LDR_TOP_LEFT r + LDR_BOT_LEFT r) / 2
  - (LDR_TOP_RIGHT r + LDR_BOT_RIGHT r) / 2.

(** One step of a servo at [angle] for the error [e], exactly. *)
Definition steered (e angle low high : Z) : Z :=
  if Z.abs e <=? TOLERANCE then angle
  else if 0 <? e then Z.min (angle + 1) high
  else Z.max (angle - 1) low.

End Sketch.

(* ================================================================== *)
(** ** The sketch with two light sensors and one servo *)
(* ================================================================== *)

(** The simpler sketch of the repository: one servo that follows the
    difference of a left and a right sensor.  Types, macros and printing
    are those of the sketch above. *)
Module SingleAxis.

Import Sketch.

Definition threshold : Z := 50.
Definition dustThreshold : Z := 200.

Record state : Type := { pos : Z; lastReport : Z }.

(** [pos = 90] and [lastReport = 0]. *)
Definition initial : state := {| pos := 90; lastReport := 0 |}.

(** The analog reads of one pass: the two sensors at its start, and the
    dust sensor when the pass reports. *)
Record reads : Type := { ldrLeft : Z; ldrRight : Z; dustPin : Z }.

Inductive output : Type :=
| Servo (angle : Z)
| Println (text : jsstring).

Definition diff (r : reads) : Z := int16 (ldrLeft r - ldrRight r).

Definition lightPct (r : reads) : Z :=
  int16 (map (int16 (Z.quot (int16 (ldrLeft r + ldrRight r)) 2)) 0 1023 0 100).

Definition dustAlert (r : reads) : bool := dustPin r <? dustThreshold.

(** The text of the prints of a report, up to the line end. *)
Definition report (r : reads) (f : simulated) (pos : Z) : jsstring :=
  lit "{"
  ++ lit "'voltage':" ++ print_float (busVoltage f)
  ++ lit ",'current':" ++ print_float (current_mA f)
  ++ lit ",'power':" ++ print_float (power_W f)
  ++ lit ",'angleH':" ++ print_int pos
  ++ lit ",'angleV':" ++ print_int 90
  ++ lit ",'light':" ++ print_int (lightPct r)
  ++ lit ",'dustAlert':" ++ (if dustAlert r then lit "true" else lit "false")
  ++ lit ",'dustRaw':" ++ print_int (dustPin r)
  ++ lit ",'ldrLeft':" ++ print_int (ldrLeft r)
  ++ lit ",'ldrRight':" ++ print_int (ldrRight r)
  ++ lit ",'diff':" ++ print_int (diff r)
  ++ lit "}".

(** One pass of [loop]; [millis] is what [millis()] gives in the test of
    the report and [millis'] what it gives in the assignment after it. *)
Definition loop (millis millis' : Z) (r : reads) (f : simulated) (s : state)
  : state * list output :=
  let pos :=
    if diff r >? threshold then int16 (pos s - 1)
    else if diff r <? int16 (- threshold) then int16 (pos s + 1)
    else pos s in
  let pos := constrain pos 0 180 in
  if uint32 (millis - lastReport s) >=? 2000 then
    ({| pos := pos; lastReport := millis' |},
     [Servo pos; Println (report r f pos)])
  else ({| pos := pos; lastReport := lastReport s |}, [Servo pos]).

Record pass : Type := {
  at_test : Z;
  at_assignment : Z;
  read : reads;
  floats : simulated
}.

Definition run (passes : list pass) (s : state) : state * list output :=
  fold_left
    (fun acc p =>
       let '(s', out) :=
         loop (at_test p) (at_assignment p) (read p) (floats p) (fst acc) in
       (s', snd acc ++ out))
    passes (s, []).

(** The servo is told an angle from 0 to 180. *)
Definition allowed (o : output) : Prop :=
  match o with
  | Servo a => 0 <= a <= 180
  | Println _ => True
  end.

End SingleAxis.

(* ================================================================== *)
(** ** The forecast arithmetic on IEEE doubles *)
(* ================================================================== *)

(** Lines 150-179 of [runPrediction] once more, on binary64 numbers, for a
    base power and a cloud cover that are numbers. *)
Module Binary64.

Import PrimFloat SpecFloat FloatOps.
#[local] Set Warnings "-inexact-float".

Definition hourlyFactor : list float :=
  [ 0; 0; 0; 0; 0; 0.05;
    0.1; 0.2; 0.35; 0.55; 0.75; 0.9;
    1.0; 0.95; 0.85; 0.7; 0.5; 0.3;
    0.1; 0.05; 0; 0; 0; 0 ]%float.

(** The double of an integer below 2^53 in magnitude. *)
Definition of_int (z : Z) : float :=
  if z <? 0 then (- of_uint63 (Uint63.of_Z (- z)))%float
  else of_uint63 (Uint63.of_Z z).

(** A finite double is [m * 2^e]. *)
Definition decode (x : float) : option (Z * Z) :=
  match Prim2SF x with
  | S754_zero _ => Some (0, 0)
  | S754_finite s m e => Some (if s then Z.neg m else Z.pos m, e)
  | _ => None
  end.

(** [floor (k * m * 2^e + 1/2)], exactly. *)
Definition scaled_round (k m e : Z) : Z :=
  if 0 <=? e then k * m * 2 ^ e
  else (2 * k * m + 2 ^ (- e)) / 2 ^ (1 - e).

(** [Math.round(x)]; a double with no fractional bits is its own
    rounding, and a result of zero keeps the sign of [x]. *)
Definition Math_round (x : float) : float :=
  match decode x with
  | Some (m, e) =>
      if 0 <=? e then x
      else let n := scaled_round 1 m e in
           if (n =? 0) && (ltb x 0 || (m =? 0)) then (x * 0)%float
           else of_int n
  | None => x
  end.

(** [parseFloat(x.toFixed(3))]: the double nearest to [n / 1000], where [n]
    is the magnitude in thousandths rounded half up.  When [n] has more
    than 53 bits the doubles around [x] are more than 0.001 apart and the
    result is [x]. *)
Definition toFixed3 (x : float) : float :=
  match decode x with
  | Some (m, e) =>
      let n := scaled_round 1000 (Z.abs m) e in
      if n <? 2 ^ 53 then
        (if ltb x 0 then - (of_int n / 1000) else of_int n / 1000)%float
      else x
  | None => x
  end.

(** [Math.max(0, x)] *)
Definition Math_max0 (x : float) : float :=
  if ltb 0 x then x else if leb x 0 then 0%float else x.

Definition cloudFactor (clouds : float) : float :=
  (1 - (clouds / 100) * 0.7)%float.

(** [hourlyFactor[i]] as a number *)
Definition index (i : Z) : float :=
  if i <? 0 then nan else nth (Z.to_nat i) hourlyFactor nan.

(** The [predicted] field of the forecast entry for offset [i]. *)
Definition predicted (basePower clouds : float) (hour i : Z) : float :=
  Math_max0 (toFixed3 (basePower * index (Z.rem (hour + i) 24)
                       * cloudFactor clouds * 1.1)%float).

Definition predicted_power (basePower clouds : float) (hour : Z) : float :=
  Math_max0 (toFixed3 (basePower * index (Z.rem (hour + 1) 24)
                       * cloudFactor clouds)%float).

Definition confidence (clouds : float) : float :=
  Math_round (cloudFactor clouds * 90)%float.

(** The thousandths nearest to a finite double. *)
Definition thousandths (x : float) : option Z :=
  match decode x with
  | Some (m, e) => Some (scaled_round 1000 m e)
  | None => None
  end.

(** The power 8.421 of the schema's sample reading. *)
Definition sample_power : float := 8.421%float.

End Binary64.

(* ================================================================== *)
(** ** Vocabulary of the specification *)
(* ================================================================== *)

Module Spec.

Import Server.

(** The telemetry fields of a Reading (section 3), [timestamp] apart, and
    the type each must have. *)
Definition required : list jsstring :=
  [ lit "voltage"; lit "current"; lit "power"; lit "angleH"; lit "angleV";
    lit "light"; lit "dustAlert"; lit "dustRaw" ].

Definition well_typed (k : jsstring) (v : value) : bool :=
  match v with
  | VNum (Fin _) => negb (str_eqb k (lit "dustAlert"))
  | VBool _ => str_eqb k (lit "dustAlert")
  | _ => false
  end.

(** Every required field is present with a value of its type. *)
Definition conforms (o : object) : bool :=
  forallb (fun k => well_typed k (lookup o k)) required.

(** The object has an own property [k]. *)
Definition has_key (o : object) (k : jsstring) : bool :=
  existsb (fun p => str_eqb (fst p) k) o.


(** The shape of a telemetry line (section 6): the required fields with
    their types, and neither [status] nor [error]. *)
Definition telemetry_shape (o : object) : bool :=
  conforms o && negb (has_key o (lit "status"))
  && negb (has_key o (lit "error")).

(** [data.error || data.status] for a decoded object. *)
Definition message_of (o : object) : value :=
  or_else (lookup o (lit "error")) (lookup o (lit "status")).

(** The object with its [timestamp] set to [now]. *)
Definition stamp (o : object) (now : Z) : value :=
  VObj (assign o (lit "timestamp") (integer now)).

(** The state after [data] has been taken as the reading and written to
    the database. *)
Definition store (data : value) (s : state) : state :=
  with_db (Firebase.push_history data)
    (with_db (Firebase.set_live data) (with_latestReading data s)).

(** A slot is absent when it holds [undefined] or [null]. *)
Definition absent (v : value) : bool :=
  match v with VUndefined | VNull => true | _ => false end.


(** The handler takes the line as a reading: the line starts with a
    brace, decodes as an object, and [data.error || data.status] is not
    truthy. *)
Definition taken (line : jsstring) : bool :=
  startsWith (trim line) (lit "{")
  && match JSON.parse (trim line) with
     | Ok (VObj o) => negb (truthy (message_of o))
     | _ => false
     end.


(** A history entry with a numeric timestamp, and that timestamp. *)
Definition timestamp_of (v : value) : option Q :=
  match v with
  | VObj o =>
      match lookup o (lit "timestamp") with
      | VNum (Fin q) => Some q
      | _ => None
      end
  | _ => None
  end.

Definition stamped (v : value) : Prop := exists q, timestamp_of v = Some q.

(** [a] does not come after [b] in time. *)
Definition not_after (a b : value) : Prop :=
  match timestamp_of a, timestamp_of b with
  | Some x, Some y => (x <= y)%Q
  | _, _ => False
  end.

(** Whether [a] has the later timestamp. *)
Definition later (a b : value) : bool :=
  match timestamp_of a, timestamp_of b with
  | Some x, Some y => 0 <? Qnum (Qred (x - y))
  | _, _ => false
  end.

(** What every state of a run satisfies: the reading and the weather cache
    are objects, and every history entry has a numeric timestamp. *)
Definition invariant (s : state) : Prop :=
  (exists r, latestReading s = VObj r) /\
  (exists w, weatherCache s = VObj w) /\
  Forall stamped (Firebase.history (db s)).

(** A weather payload from which the snapshot cannot be read: the payload,
    its [main], [clouds] or [wind], its [weather] or the first element of
    [weather] is null or undefined. *)
Definition unreadable (data : value) : bool :=
  let missing (r : result value) :=
    match r with Ok v => absent v | Throw _ => true end in
  missing (Ok data)
  || missing (get data (lit "main"))
  || missing (get data (lit "clouds"))
  || missing (get data (lit "weather"))
  || missing (let* w := get data (lit "weather") in get0 w)
  || missing (get data (lit "wind")).

(** A payload with the five fields of a WeatherSnapshot, each of its
    type. *)
Definition weather_payload_ok (data : value) : bool :=
  let is_number (r : result value) :=
    match r with Ok (VNum (Fin _)) => true | _ => false end in
  let is_string (r : result value) :=
    match r with Ok (VStr _) => true | _ => false end in
  is_number (let* m := get data (lit "main") in get m (lit "temp"))
  && is_number (let* m := get data (lit "main") in get m (lit "humidity"))
  && is_number (let* c := get data (lit "clouds") in get c (lit "all"))
  && is_string (let* w := get data (lit "weather") in
                let* w0 := get0 w in get w0 (lit "description"))
  && is_number (let* w := get data (lit "wind") in get w (lit "speed")).

(** The limit the history store is queried with for [req.query.limit], or
    the store's refusal. *)
Definition applied_limit (query_limit : option jsstring) : result nat :=
  Firebase.limitToLast (ToNumber (limit_of query_limit)).

(** The decimal text of [10^k]: a 1 and [k] zeros. *)
Definition power_of_ten (k : nat) : jsstring := 49%N :: repeat 48%N k.

(** A fetch fails, in the words of section 4.4, on a network error, a
    non-success status or a malformed payload. *)
Definition failing (reply : http_reply) : bool :=
  match reply with
  | NetworkError _ => true
  | Response st data =>
      negb ((200 <=? st) && (st <? 300)) || negb (weather_payload_ok data)
  end.

(** The failures that leave the snapshot alone. *)
Definition rejected (reply : http_reply) : bool :=
  match reply with
  | NetworkError _ => true
  | Response st data =>
      negb ((200 <=? st) && (st <? 300)) || unreadable data
  end.

(** Section 4.5, in the words of the specification. *)
Definition shape (hour : Z) : Q := nth (Z.to_nat hour) hourlyFactor 0%Q.

Definition cloudFactor (clouds : Q) : Q := 1 - (clouds / 100) * (7 # 10).

(** Clamped to at least zero. *)
Definition clamp (x : Q) : Q := if Qle_bool 0 x then x else 0.

(** Rounded to three decimal digits. *)
Definition round3 (x : Q) : Q := Qfloor (x * 1000 + (1 # 2)) # 1000.

Definition forecast_entry (basePower clouds : Q) (currentHour i : Z) : Q :=
  round3 (clamp (basePower * shape ((currentHour + i) mod 24)
                 * cloudFactor clouds * (11 # 10))).

Definition predicted_power (basePower clouds : Q) (currentHour : Z) : Q :=
  round3 (clamp (basePower * shape ((currentHour + 1) mod 24)
                 * cloudFactor clouds)).

Definition confidence (clouds : Q) : Z :=
  Qfloor (cloudFactor clouds * 90 + (1 # 2)).

(** The whole percentages, 0 to 100. *)
Definition percentages : list Z := map Z.of_nat (seq 0 101).

(** Every cloud percentage, hour of the day and forecast offset. *)
Definition forecast_grid : list (Z * Z * Z) :=
  list_prod (list_prod percentages (map Z.of_nat (seq 0 24)))
            [1; 2; 3; 4; 5; 6].





(** The property [k] of [v], or [undefined] where reading it throws; the
    first element likewise. *)
Definition field (v : value) (k : jsstring) : value :=
  match get v k with Ok x => x | Throw _ => VUndefined end.

Definition first (v : value) : value :=
  match get0 v with Ok x => x | Throw _ => VUndefined end.

(** The six fields of a weather snapshot, read from a payload. *)
Definition snapshot_fields (data : value) (now : Z) : value :=
  VObj [ (lit "temp", field (field data (lit "main")) (lit "temp"));
         (lit "humidity", field (field data (lit "main")) (lit "humidity"));
         (lit "clouds", field (field data (lit "clouds")) (lit "all"));
         (lit "description",
          field (first (field data (lit "weather"))) (lit "description"));
         (lit "windSpeed", field (field data (lit "wind")) (lit "speed"));
         (lit "timestamp", integer now) ].

End Spec.

Import Firebase Server.

(* ================================================================== *)
(** ** Facts about the JavaScript data *)
(* ================================================================== *)

Section StringFacts.

Lemma str_eqb_spec a b : reflect (a = b) (str_eqb a b).
Proof.
  revert b; induction a as [|x a IH]; intros [|y b]; simpl;
    try (constructor; congruence).
  destruct (N.eqb_spec x y) as [->|Hxy]; simpl.
  - destruct (IH b) as [->|Hab]; constructor; congruence.
  - constructor; congruence.
Qed.

Lemma str_eqb_refl a : str_eqb a a = true.
Proof. destruct (str_eqb_spec a a); congruence. Qed.

Lemma lookup_assign_same o k v : lookup (assign o k v) k = v.
Proof.
  induction o as [|[k' v'] o IH]; simpl.
  - now rewrite str_eqb_refl.
  - destruct (str_eqb k' k) eqn:E; simpl; now rewrite E.
Qed.


(** A trimmed line that has a first character: that character is not
    white space. *)
Lemma trimStart_head s c r : trimStart s = c :: r -> is_space c = false.
Proof.
  induction s as [|x s IH]; simpl; [discriminate|].
  destruct (is_space x) eqn:E; [exact IH|].
  intros H; injection H as -> _; exact E.
Qed.

Lemma trimStart_snoc l c :
  is_space c = false -> exists l', trimStart (l ++ [c]) = l' ++ [c].
Proof.
  intros Hc; induction l as [|x l [l' IH]]; simpl.
  - rewrite Hc; now exists [].
  - destruct (is_space x); [now exists l'|].
    now exists (x :: l).
Qed.

Lemma trim_head line c r :
  trim line = c :: r -> is_space c = false.
Proof.
  unfold trim, trimEnd.
  destruct (trimStart line) as [|x t] eqn:E; [discriminate|].
  pose proof (trimStart_head _ _ _ E) as Hx.
  simpl rev.
  destruct (trimStart_snoc (rev t) x Hx) as [l' ->].
  rewrite rev_app_distr; simpl.
  intros H; injection H as <- _; exact Hx.
Qed.

End StringFacts.

(* ================================================================== *)
(** ** Facts about [JSON.parse] *)
(* ================================================================== *)

Section ParserFacts.

Import JSON.

(** [JSON.parse] on some texts. *)
Example parse_examples :
  JSON.parse (lit "{'a':[1,2.50,-0.5e1,true,null],'b':{'c':'x'}}") =
    Ok (VObj [ (lit "a", VArr [ VNum (Fin 1); VNum (Fin (5 # 2));
                               VNum (Fin (-5)); VBool true; VNull ]);
               (lit "b", VObj [ (lit "c", VStr (lit "x")) ]) ]) /\
  JSON.parse (lit " { 'k' : 1 , 'k' : 2 } ")
    = Ok (VObj [ (lit "k", VNum (Fin 2)) ]) /\
  JSON.parse (lit "{'voltage':") = Throw (lit "Unexpected token in JSON") /\
  JSON.parse (lit "{'a':01}") = Throw (lit "Unexpected token in JSON") /\
  JSON.parse (lit "{'a':1,}") = Throw (lit "Unexpected token in JSON") /\
  JSON.parse (lit "{a:1}") = Throw (lit "Unexpected token in JSON") /\
  JSON.parse (lit "{'a':1} x") = Throw (lit "Unexpected token in JSON").
Proof. repeat split. Qed.

Lemma take_digits_length r s ds rest :
  take_digits r s = (ds, rest) ->
  (List.length rest + List.length ds = List.length s)%nat.
Proof.
  revert ds rest; induction s as [|c s IH]; simpl; intros ds rest H.
  - injection H as <- <-; reflexivity.
  - destruct (digit r c).
    + destruct (take_digits r s) as [ds' rest'] eqn:E.
      injection H as <- <-. specialize (IH _ _ eq_refl). simpl; lia.
    + injection H as <- <-; simpl; lia.
Qed.

Lemma take_sign_length s neg rest :
  take_sign s = (neg, rest) -> (List.length rest <= List.length s)%nat.
Proof.
  unfold take_sign; destruct s as [|c s]; simpl.
  - intros H; injection H as _ <-; simpl; lia.
  - destruct (c =? 45)%N; [|destruct (c =? 43)%N];
      intros H; injection H as _ <-; simpl; lia.
Qed.

Lemma take_exponent_length s e rest :
  take_exponent s = Some (e, rest) -> (List.length rest <= List.length s)%nat.
Proof.
  unfold take_exponent; destruct s as [|c s].
  - intros H; injection H as _ <-; simpl; lia.
  - destruct ((c =? 101) || (c =? 69))%N.
    + destruct (take_sign s) as [neg r1] eqn:Es.
      destruct (take_digits 10 r1) as [ds rest'] eqn:Ed.
      apply take_sign_length in Es. apply take_digits_length in Ed.
      destruct ds; [discriminate|].
      intros H; injection H as _ <-; simpl in *; lia.
    + intros H; injection H as _ <-; simpl; lia.
Qed.

Lemma scan_number_length s q rest :
  scan_number s = Some (q, rest) -> (List.length rest < List.length s)%nat.
Proof.
  unfold scan_number.
  set (sg := match s with
             | [] => (false, s)
             | c :: r => if (c =? 45)%N then (true, r) else (false, s)
             end).
  assert (Hsg : (List.length (snd sg) <= List.length s)%nat).
  { subst sg; destruct s as [|c r]; simpl; [lia|].
    destruct (c =? 45)%N; simpl; lia. }
  destruct sg as [neg r0]; simpl in Hsg.
  destruct (take_digits 10 r0) as [ints r1] eqn:Ei.
  apply take_digits_length in Ei.
  destruct ints as [|d ints]; [discriminate|].
  assert (Hfrac : forall fr,
     match r1 with
     | [] => Some ([], r1)
     | c :: r =>
         if (c =? 46)%N then
           match take_digits 10 r with
           | ([], _) => None
           | ((_ :: _) as fs, r') => Some (fs, r')
           end
         else Some ([], r1)
     end = Some fr -> (List.length (snd fr) <= List.length r1)%nat).
  { intros fr; destruct r1 as [|c r].
    - intros H; injection H as <-; simpl; lia.
    - destruct (c =? 46)%N.
      + destruct (take_digits 10 r) as [fs r'] eqn:Ef.
        apply take_digits_length in Ef.
        destruct fs; [discriminate|].
        intros H; injection H as <-; simpl in *; lia.
      + intros H; injection H as <-; simpl; lia. }
  intros H.
  assert (Hgo : forall fr,
     match r1 with
     | [] => Some ([], r1)
     | c :: r =>
         if (c =? 46)%N then
           match take_digits 10 r with
           | ([], _) => None
           | ((_ :: _) as fs, r') => Some (fs, r')
           end
         else Some ([], r1)
     end = fr ->
     match fr with
     | None => None
     | Some (fracs, r2) =>
         match take_exponent r2 with
         | None => None
         | Some (e, rest0) =>
             Some (decimal (if neg then - digits_value 10 ((d :: ints) ++ fracs)
                            else digits_value 10 ((d :: ints) ++ fracs))
                     (e - Z.of_nat (List.length fracs)), rest0)
         end
     end = Some (q, rest) -> (List.length rest < List.length s)%nat).
  { intros [[fracs r2]|] Hfr; [|discriminate].
    apply Hfrac in Hfr; simpl in Hfr.
    destruct (take_exponent r2) as [[e rest0]|] eqn:Ee; [|discriminate].
    apply take_exponent_length in Ee.
    intros H0; injection H0 as _ <-; simpl in *; lia. }
  destruct d as [|pd|nd]; [destruct ints; [|discriminate]| |];
    eapply Hgo; try reflexivity; exact H.
Qed.

Lemma scan_string_length n : forall s acc str rest,
  (List.length s <= n)%nat ->
  scan_string s acc = Some (str, rest) ->
  (List.length rest < List.length s)%nat.
Proof.
  induction n as [|n IH]; intros s acc str rest Hn H.
  - destruct s; [discriminate | simpl in Hn; lia].
  - destruct s as [|c r]; [discriminate|]. simpl in H, Hn.
    destruct (c =? 34)%N.
    { injection H as _ <-; simpl; lia. }
    destruct (c =? 92)%N.
    + destruct r as [|e r1]; [discriminate|].
      destruct (e =? 117)%N.
      * destruct r1 as [|h1 [|h2 [|h3 [|h4 r2]]]]; try discriminate.
        destruct (hex4 h1 h2 h3 h4); [|discriminate].
        apply IH in H; simpl in *; lia.
      * destruct (escape e); [|discriminate].
        apply IH in H; simpl in *; lia.
    + destruct (c <? 32)%N; [discriminate|].
      apply IH in H; simpl in *; lia.
Qed.

Lemma keyword_length s t rest :
  keyword s = Some (t, rest) -> (List.length rest < List.length s)%nat.
Proof.
  unfold keyword.
  destruct (startsWith s (lit "true")) eqn:E1.
  { intros H; injection H as _ <-.
    destruct s as [|? [|? [|? [|? ?]]]]; simpl in *; try discriminate;
      try lia; repeat (rewrite ?andb_false_r in E1; try discriminate). }
  destruct (startsWith s (lit "false")) eqn:E2.
  { intros H; injection H as _ <-.
    destruct s as [|? [|? [|? [|? [|? ?]]]]]; simpl in *; try discriminate;
      try lia; repeat (rewrite ?andb_false_r in E2; try discriminate). }
  destruct (startsWith s (lit "null")) eqn:E3; [|discriminate].
  intros H; injection H as _ <-.
  destruct s as [|? [|? [|? [|? ?]]]]; simpl in *; try discriminate;
    try lia; repeat (rewrite ?andb_false_r in E3; try discriminate).
Qed.

Lemma push_token_fuel t r : r <> OutOfFuel -> push_token t r <> OutOfFuel.
Proof. destruct r; simpl; congruence. Qed.

(** The scanner is given one unit of fuel per character and never runs
    out. *)
Lemma tokens_fuel fuel : forall s,
  (List.length s < fuel)%nat -> tokens fuel s <> OutOfFuel.
Proof.
  induction fuel as [|fuel IH]; intros s Hs; [lia|].
  destruct s as [|c r]; simpl; [discriminate|]. simpl in Hs.
  destruct (is_ws c); [apply IH; lia|].
  destruct (punctuation c); [apply push_token_fuel, IH; lia|].
  destruct (c =? 34)%N.
  { destruct (scan_string r []) as [[str rest]|] eqn:E; [|discriminate].
    apply (scan_string_length _ _ _ _ _ (le_n _)) in E.
    apply push_token_fuel, IH; lia. }
  destruct (keyword (c :: r)) as [[t rest]|] eqn:Ek.
  { apply keyword_length in Ek; simpl in Ek.
    apply push_token_fuel, IH; lia. }
  destruct (scan_number (c :: r)) as [[q rest]|] eqn:En; [|discriminate].
  apply scan_number_length in En; simpl in En.
  apply push_token_fuel, IH; lia.
Qed.

(** So is the parser, with two units per token. *)
Lemma parse_fuel fuel :
  (forall ts, (2 * List.length ts < fuel)%nat ->
     parse_value fuel ts <> OutOfFuel /\
     forall v rest, parse_value fuel ts = Done (v, rest) ->
                    (List.length rest < List.length ts)%nat) /\
  (forall ts acc, (2 * List.length ts + 1 < fuel)%nat ->
     elements fuel ts acc <> OutOfFuel /\
     forall l rest, elements fuel ts acc = Done (l, rest) ->
                    (List.length rest < List.length ts)%nat) /\
  (forall ts acc, (2 * List.length ts + 1 < fuel)%nat ->
     members fuel ts acc <> OutOfFuel /\
     forall o rest, members fuel ts acc = Done (o, rest) ->
                    (List.length rest < List.length ts)%nat).
Proof.
  induction fuel as [|fuel (IHv & IHe & IHm)].
  { repeat split; intros; lia. }
  assert (trivial_case : forall (A : Type) (n : nat) (r : outcome (A * list token)),
             r = Fail ->
             r <> OutOfFuel /\
             forall a rest, r = Done (a, rest) -> (List.length rest < n)%nat).
  { intros A n r ->; split; [discriminate | intros; discriminate]. }
  split; [|split].
  - intros ts Hts. destruct ts as [|t r]; [now apply trivial_case|].
    simpl in Hts.
    assert (leaf : forall v,
      @Done (value * list token) (v, r) <> OutOfFuel /\
      forall v' rest, Done (v, r) = Done (v', rest) ->
                      (List.length rest < List.length (t :: r))%nat).
    { intros v; split; [discriminate|].
      intros v' rest H; injection H as _ <-; simpl; lia. }
    assert (object_case :
      match members fuel r [] with
      | Done (o, rest) => Done (VObj o, rest)
      | Fail => Fail
      | OutOfFuel => OutOfFuel
      end <> OutOfFuel /\
      forall v rest,
        match members fuel r [] with
        | Done (o, rest) => Done (VObj o, rest)
        | Fail => Fail
        | OutOfFuel => OutOfFuel
        end = Done (v, rest) ->
        (List.length rest < List.length (t :: r))%nat).
    { destruct (IHm r []) as [Hf Hl]; [lia|].
      destruct (members fuel r []) as [[o rest]| |]; [| |congruence].
      - split; [discriminate|].
        intros v rest0 H; injection H as _ <-.
        specialize (Hl _ _ eq_refl); simpl; lia.
      - split; [discriminate | intros; discriminate]. }
    assert (array_case :
      match elements fuel r [] with
      | Done (l, rest) => Done (VArr l, rest)
      | Fail => Fail
      | OutOfFuel => OutOfFuel
      end <> OutOfFuel /\
      forall v rest,
        match elements fuel r [] with
        | Done (l, rest) => Done (VArr l, rest)
        | Fail => Fail
        | OutOfFuel => OutOfFuel
        end = Done (v, rest) ->
        (List.length rest < List.length (t :: r))%nat).
    { destruct (IHe r []) as [Hf Hl]; [lia|].
      destruct (elements fuel r []) as [[o rest]| |]; [| |congruence].
      - split; [discriminate|].
        intros v rest0 H; injection H as _ <-.
        specialize (Hl _ _ eq_refl); simpl; lia.
      - split; [discriminate | intros; discriminate]. }
    destruct t; simpl; try apply leaf; try (now apply trivial_case).
    + destruct r as [|[] r']; try exact object_case.
      split; [discriminate|].
      intros v rest H; injection H as _ <-; simpl; lia.
    + destruct r as [|[] r']; try exact array_case.
      split; [discriminate|].
      intros v rest H; injection H as _ <-; simpl; lia.
  - intros ts acc Hts. simpl.
    destruct (IHv ts) as [Hf Hl]; [lia|].
    destruct (parse_value fuel ts) as [[v rest]| |];
      [| now apply trivial_case | congruence].
    specialize (Hl _ _ eq_refl).
    destruct rest as [|[] r]; try (now apply trivial_case).
    + split; [discriminate|].
      intros l rest H; injection H as _ <-; simpl in *; lia.
    + destruct (IHe r (v :: acc)) as [Hf' Hl']; [simpl in *; lia|].
      split; [exact Hf'|].
      intros l rest H; apply Hl' in H; simpl in *; lia.
  - intros ts acc Hts. simpl.
    destruct ts as [|[] [|[] r]]; try (now apply trivial_case).
    simpl in Hts.
    destruct (IHv r) as [Hf Hl]; [lia|].
    destruct (parse_value fuel r) as [[v rest]| |];
      [| now apply trivial_case | congruence].
    specialize (Hl _ _ eq_refl).
    destruct rest as [|[] r0]; try (now apply trivial_case).
    + split; [discriminate|].
      intros l rest H; injection H as _ <-; simpl in *; lia.
    + destruct (IHm r0 (assign acc s v)) as [Hf' Hl']; [simpl in *; lia|].
      split; [exact Hf'|].
      intros l rest H; apply Hl' in H; simpl in *; lia.
Qed.

(** [JSON.parse] never reports a syntax error for lack of fuel. *)
Lemma parse_has_fuel text :
  tokens (S (List.length text)) text <> OutOfFuel /\
  forall ts, parse_value (2 * List.length ts + 1) ts <> OutOfFuel.
Proof.
  split; [apply tokens_fuel; lia|].
  intros ts; apply (proj1 (parse_fuel _)); lia.
Qed.

Lemma is_ws_space c : is_ws c = true -> is_space c = true.
Proof.
  unfold is_ws, is_space; intros H.
  repeat (apply orb_prop in H; destruct H as [H|H]);
    apply N.eqb_eq in H; subst c; reflexivity.
Qed.

(** The first token of a text that starts with something other than JSON
    white space is an opening brace exactly when that character is one. *)
Lemma tokens_head fuel c r ts :
  is_ws c = false ->
  tokens fuel (c :: r) = Done ts ->
  exists t ts', ts = t :: ts' /\ (t = TLBrace <-> c = 123%N).
Proof.
  intros Hws. destruct fuel as [|fuel]; simpl; [discriminate|].
  rewrite Hws.
  assert (Hpush : forall t o,
             push_token t o = Done ts -> exists ts', ts = t :: ts').
  { intros t [ts0| |]; simpl; try discriminate.
    intros H; injection H as <-; now exists ts0. }
  unfold punctuation.
  destruct (N.eqb_spec c 123) as [->|Hc].
  { intros H; apply Hpush in H as [ts' ->].
    exists TLBrace, ts'; tauto. }
  assert (Hno : forall t ts', t <> TLBrace -> ts = t :: ts' ->
             exists t0 ts0, ts = t0 :: ts0 /\ (t0 = TLBrace <-> c = 123%N)).
  { intros t ts' Ht ->; exists t, ts'; split; [reflexivity | tauto]. }
  repeat match goal with
         | |- context [(c =? ?k)%N] => destruct (c =? k)%N
         | |- push_token ?t _ = _ -> _ =>
             intros H; apply Hpush in H as [ts' H];
             apply (Hno t ts'); [discriminate | exact H]
         end.
  - destruct (scan_string r []) as [[str rest]|]; [|discriminate].
    intros H; apply Hpush in H as [ts' H].
    apply (Hno (TString str) ts'); [discriminate | exact H].
  - destruct (keyword (c :: r)) as [[t rest]|] eqn:Ek.
    + intros H; apply Hpush in H as [ts' H].
      apply (Hno t ts'); [|exact H].
      unfold keyword in Ek.
      repeat match type of Ek with
             | (if ?b then _ else _) = _ => destruct b
             end; try discriminate; injection Ek as <- _; discriminate.
    + destruct (scan_number (c :: r)) as [[q rest]|]; [|discriminate].
      intros H; apply Hpush in H as [ts' H].
      apply (Hno (TNumber q) ts'); [discriminate | exact H].
Qed.

(** A value that begins with an opening brace is an object, and only
    such a value is. *)
Lemma parse_value_object fuel t ts v rest :
  parse_value fuel (t :: ts) = Done (v, rest) ->
  (t = TLBrace <-> exists o, v = VObj o).
Proof.
  destruct fuel as [|fuel]; simpl; [discriminate|].
  destruct t; try (intros H; injection H as <- _;
                   split; [discriminate | intros [o Ho]; discriminate]);
    try discriminate.
  - assert (Hm : forall x : outcome (object * list token),
               match x with
               | Done (o, r0) => Done (VObj o, r0)
               | Fail => Fail
               | OutOfFuel => OutOfFuel
               end = Done (v, rest) -> exists o, v = VObj o).
    { intros [[o r0]| |]; try discriminate.
      intros H; injection H as <- _; eauto. }
    intros H; split; [intros _ | reflexivity].
    destruct ts as [|[] ts']; eauto.
    injection H as <- _; eauto.
  - assert (Hm : forall x : outcome (list value * list token),
               match x with
               | Done (l, r0) => Done (VArr l, r0)
               | Fail => Fail
               | OutOfFuel => OutOfFuel
               end = Done (v, rest) -> exists l, v = VArr l).
    { intros [[l r0]| |]; try discriminate.
      intros H; injection H as <- _; eauto. }
    intros H; split; [discriminate|].
    assert (exists l, v = VArr l) as [l ->].
    { destruct ts as [|[] ts']; eauto.
      injection H as <- _; eauto. }
    intros [o Ho]; discriminate.
Qed.

(** [JSON.parse] of a text whose first character is an opening brace gives
    an object or throws. *)
Lemma parse_brace_object text v :
  startsWith text (lit "{") = true ->
  JSON.parse text = Ok v -> exists o, v = VObj o.
Proof.
  destruct text as [|c r]; [discriminate|].
  intros Hc.
  assert (c = 123%N) as ->.
  { change (startsWith (c :: r) (lit "{"))
      with ((123 =? c)%N && true) in Hc.
    rewrite andb_true_r in Hc. symmetry; now apply N.eqb_eq. }
  unfold JSON.parse.
  destruct (tokens _ _) as [ts| |] eqn:Et; try discriminate.
  apply tokens_head in Et as (t & ts' & -> & Ht); [|reflexivity].
  destruct (parse_value _ _) as [[v' rest]| |] eqn:Ev; try discriminate.
  destruct rest; [|discriminate].
  intros H; injection H as <-.
  apply parse_value_object in Ev. apply Ev, Ht; reflexivity.
Qed.

(** A trimmed line that [JSON.parse] reads as an object starts with an
    opening brace. *)
Lemma parse_object_brace line o :
  JSON.parse (trim line) = Ok (VObj o) ->
  startsWith (trim line) (lit "{") = true.
Proof.
  destruct (trim line) as [|c r] eqn:El.
  { unfold JSON.parse; simpl; discriminate. }
  assert (Hws : is_ws c = false).
  { apply trim_head in El. destruct (is_ws c) eqn:E; [|reflexivity].
    apply is_ws_space in E; congruence. }
  unfold JSON.parse.
  destruct (tokens _ _) as [ts| |] eqn:Et; try discriminate.
  apply tokens_head in Et as (t & ts' & -> & Ht); [|exact Hws].
  destruct (parse_value _ _) as [[v' rest]| |] eqn:Ev; try discriminate.
  destruct rest; [|discriminate].
  intros H; injection H as ->.
  apply parse_value_object in Ev.
  assert (c = 123%N) as -> by (apply Ht, Ev; eauto).
  reflexivity.
Qed.

End ParserFacts.

(* ================================================================== *)
(** ** The serial handler *)
(* ================================================================== *)

Section HandlerFacts.

Variable client_accepts : value -> bool.

Lemma get_or_object o a b :
  get_or (VObj o) a b = Ok (or_else (lookup o a) (lookup o b)).
Proof.
  unfold get_or, or_else; simpl. now destruct (truthy (lookup o a)).
Qed.

(** What the handler does with a line that decodes as an object. *)
Lemma initSerial_onData_object line now s o :
  JSON.parse (trim line) = Ok (VObj o) ->
  initSerial_onData client_accepts line now s =
    if truthy (Spec.message_of o) then
      (DeviceMessage (Spec.message_of o),
       log (Log_arduino (Spec.message_of o)) s)
    else
      let data := assign o (lit "timestamp") (integer now) in
      if client_accepts (VObj data) then
        (Accepted (VObj data),
         log (Log_reading (lookup data (lit "power"))
                          (lookup data (lit "angleH"))
                          (lookup data (lit "angleV"))
                          (lookup data (lit "dustAlert")))
             (Spec.store (VObj data) s))
      else (Malformed, with_latestReading (VObj data) s).
Proof.
  intros Hp. unfold initSerial_onData.
  rewrite (parse_object_brace _ _ Hp); simpl negb; cbv iota.
  unfold initSerial_onData_try, and_then, eval. rewrite Hp.
  rewrite get_or_object. unfold Spec.message_of; simpl.
  destruct (truthy (or_else _ _)); [reflexivity|].
  unfold db_call, update, and_then; simpl.
  destruct (client_accepts _); reflexivity.
Qed.

(** A line that does not decode is dropped by one of the two early
    exits. *)
Lemma initSerial_onData_undecoded line now s message :
  JSON.parse (trim line) = Throw message ->
  initSerial_onData client_accepts line now s = (NotJson, s) \/
  initSerial_onData client_accepts line now s = (Malformed, s).
Proof.
  intros Hp. unfold initSerial_onData.
  destruct (startsWith (trim line) (lit "{")); simpl; [|now left].
  unfold initSerial_onData_try, and_then, eval. rewrite Hp; simpl. now right.
Qed.



(** C9.  A line that, once trimmed, does not begin with an opening brace
    takes the "not JSON" exit, and the handler leaves the whole state as it
    was: the latest reading, the database with its history, the other
    caches and the console. *)
Theorem C9_not_json_ignored line now s :
  startsWith (trim line) (lit "{") = false ->
  initSerial_onData client_accepts line now s = (NotJson, s).
Proof.
  intros H. unfold initSerial_onData.
  destruct (startsWith (trim line) (lit "{")); [discriminate | reflexivity].
Qed.




End HandlerFacts.

Lemma C9_not_json_ignored_witness :
  startsWith (trim (lit "garbage")) (lit "{") = false /\
  initSerial_onData Firebase.storable (lit "garbage") 1001 (initial 0)
    = (NotJson, initial 0).
Proof.
  split; [reflexivity|].
  apply (C9_not_json_ignored Firebase.storable (lit "garbage") 1001 (initial 0)).
  reflexivity.
Defined.






(* ================================================================== *)
(** ** The weather refresher *)
(* ================================================================== *)

Section WeatherFacts.

Variable client_accepts : value -> bool.

Lemma get_absent v k :
  Spec.absent v = true -> exists m, get v k = Throw m.
Proof. destruct v; simpl; try discriminate; eauto. Qed.

Lemma get_present v k :
  Spec.absent v = false -> exists x, get v k = Ok x.
Proof. destruct v; simpl; try discriminate; eauto. Qed.

Lemma get0_absent v :
  Spec.absent v = true -> exists m, get0 v = Throw m.
Proof. destruct v; simpl; try discriminate; eauto. Qed.

Lemma get0_present v :
  Spec.absent v = false -> exists x, get0 v = Ok x.
Proof. destruct v; simpl; try discriminate; eauto. Qed.

(** What the object literal evaluates to is an object stamped [now]. *)
Lemma weather_snapshot_object data now v :
  weather_snapshot data now = Ok v ->
  exists fields, v = VObj fields /\
                 lookup fields (lit "timestamp") = integer now.
Proof.
  unfold weather_snapshot.
  repeat match goal with
         | |- context [bind (get ?v ?k) _] =>
             destruct (get v k); cbn [bind]; [|discriminate]
         | |- context [bind (get0 ?v) _] =>
             destruct (get0 v); cbn [bind]; [|discriminate]
         end.
  intros H; injection H as <-. eexists. split; reflexivity.
Qed.

(** An unreadable payload makes the object literal throw. *)
Lemma unreadable_throws data now :
  Spec.unreadable data = true ->
  exists m, weather_snapshot data now = Throw m.
Proof.
  unfold Spec.unreadable, weather_snapshot.
  destruct (Spec.absent data) eqn:Ed.
  { intros _. destruct (get_absent data (lit "main") Ed) as [m ->].
    cbn -[lit]; eauto. }
  destruct (get_present data (lit "main") Ed) as [main Hmain].
  destruct (get_present data (lit "clouds") Ed) as [clouds Hclouds].
  destruct (get_present data (lit "weather") Ed) as [weather Hweather].
  destruct (get_present data (lit "wind") Ed) as [wind Hwind].
  rewrite Hmain, Hclouds, Hweather, Hwind. cbn [orb bind].
  destruct (Spec.absent main) eqn:Em.
  { intros _. destruct (get_absent main (lit "temp") Em) as [m ->].
    cbn -[lit]; eauto. }
  destruct (get_present main (lit "temp") Em) as [temp ->].
  destruct (get_present main (lit "humidity") Em) as [humidity ->].
  cbn [orb bind].
  destruct (Spec.absent clouds) eqn:Ec.
  { intros _. destruct (get_absent clouds (lit "all") Ec) as [m ->].
    cbn -[lit]; eauto. }
  destruct (get_present clouds (lit "all") Ec) as [all ->].
  cbn [orb bind].
  destruct (Spec.absent weather) eqn:Ew.
  { intros _. destruct (get0_absent weather Ew) as [m ->].
    cbn -[lit]; eauto. }
  destruct (get0_present weather Ew) as [weather0 ->].
  cbn [orb bind].
  destruct (Spec.absent weather0) eqn:Ew0.
  { intros _.
    destruct (get_absent weather0 (lit "description") Ew0) as [m ->].
    cbn -[lit]; eauto. }
  destruct (get_present weather0 (lit "description") Ew0) as [description ->].
  cbn [orb bind].
  destruct (Spec.absent wind) eqn:Ewind; [|discriminate].
  intros _. destruct (get_absent wind (lit "speed") Ewind) as [m ->].
  cbn -[lit]; eauto.
Qed.

(** Any other payload gives a snapshot. *)
Lemma readable_snapshot data now :
  Spec.unreadable data = false ->
  exists v, weather_snapshot data now = Ok v.
Proof.
  unfold Spec.unreadable, weather_snapshot. intros H.
  repeat (apply orb_false_elim in H; destruct H as [H ?]).
  cbn -[lit] in H.
  destruct (get_present data (lit "main") H) as [main Hmain].
  destruct (get_present data (lit "clouds") H) as [clouds Hclouds].
  destruct (get_present data (lit "weather") H) as [weather Hweather].
  destruct (get_present data (lit "wind") H) as [wind Hwind].
  rewrite Hmain, Hclouds, Hweather, Hwind in *. cbn [bind] in *.
  destruct (get_present main (lit "temp")) as [temp ->]; [assumption|].
  destruct (get_present main (lit "humidity")) as [humidity ->]; [assumption|].
  destruct (get_present clouds (lit "all")) as [all ->]; [assumption|].
  destruct (get0_present weather) as [weather0 Hw0]; [assumption|].
  rewrite Hw0 in *. cbn [bind] in *.
  destruct (get_present weather0 (lit "description")) as [description ->];
    [assumption|].
  destruct (get_present wind (lit "speed")) as [speed ->]; [assumption|].
  cbn -[lit]. eexists. reflexivity.
Qed.

(** The try block of [fetchWeather] throws before it assigns anything, or
    it replaces the cache by a snapshot, an object; the client refusing the
    snapshot, it throws there, and otherwise it writes the snapshot to the
    [weather] path and logs. *)
Lemma fetchWeather_try_cases reply now s :
  (exists m, fetchWeather_try client_accepts reply now s = Abrupt m s) \/
  (exists data fields,
     axios_get reply = Ok data /\
     weather_snapshot data now = Ok (VObj fields) /\
     ((exists m,
         fetchWeather_try client_accepts reply now s =
           Abrupt m (with_weatherCache (VObj fields) s)) \/
      (exists temp clouds,
         fetchWeather_try client_accepts reply now s =
           Normal tt
             (log (Log_weather temp clouds)
                (with_db (Firebase.set_weather (VObj fields))
                   (with_weatherCache (VObj fields) s)))))).
Proof.
  unfold fetchWeather_try, and_then, eval.
  destruct (axios_get reply) as [data|m]; [|left; eexists; reflexivity].
  destruct (weather_snapshot data now) as [v|m] eqn:Hv;
    [|left; eexists; reflexivity].
  destruct (weather_snapshot_object _ _ _ Hv) as (fields & -> & _).
  right. exists data, fields. split; [reflexivity|]. split; [exact Hv|].
  unfold update, current, db_call. cbn -[lit].
  destruct (client_accepts (VObj fields)).
  - right. do 2 eexists. reflexivity.
  - left. eexists. reflexivity.
Qed.

(** The promise of [fetchWeather] always resolves. *)
Lemma fetchWeather_resolves reply now s :
  exists s', fetchWeather client_accepts reply now s = Normal tt s'.
Proof.
  unfold fetchWeather, try_catch, update.
  destruct (fetchWeather_try client_accepts reply now s) as [[] s'|m s'];
    eauto.
Qed.

Lemma fetchWeather_frame reply now s :
  let s' := final (fetchWeather client_accepts reply now s) in
  latestReading s' = latestReading s /\
  predictionCache s' = predictionCache s /\
  Firebase.history (db s') = Firebase.history (db s) /\
  ((exists o, weatherCache s' = VObj o) \/ weatherCache s' = weatherCache s).
Proof.
  unfold fetchWeather, try_catch, update.
  destruct (fetchWeather_try_cases reply now s)
    as [[m ->] | (data & fields & _ & _ & [[m ->] | (temp & clouds & ->)])];
    repeat split; simpl; eauto.
Qed.

(** A rejected reply makes the try block throw before the assignment. *)
Lemma rejected_throws reply now s :
  Spec.rejected reply = true ->
  exists m, fetchWeather_try client_accepts reply now s = Abrupt m s.
Proof.
  unfold Spec.rejected, fetchWeather_try, and_then, eval.
  destruct reply as [m|st data]; cbn -[lit]; [eauto|].
  destruct ((200 <=? st) && (st <? 300)); cbn -[lit]; [|eauto].
  intros H. destruct (unreadable_throws data now H) as [m ->]. eauto.
Qed.

(** Any other reply replaces the snapshot. *)
Lemma readable_reply_stored reply now s :
  Spec.rejected reply = false ->
  exists fields,
    weatherCache (final (fetchWeather client_accepts reply now s))
      = VObj fields /\
    lookup fields (lit "timestamp") = integer now.
Proof.
  unfold Spec.rejected. intros H.
  assert (Hd : exists data v, axios_get reply = Ok data /\
                              weather_snapshot data now = Ok v).
  { destruct reply as [m|st data]; [discriminate|]. cbn -[lit] in *.
    destruct ((200 <=? st) && (st <? 300)); [|discriminate].
    destruct (readable_snapshot data now H) as [v Hv]. eauto. }
  destruct Hd as (data & v & Hdata & Hv).
  destruct (weather_snapshot_object _ _ _ Hv) as (fields & -> & Hstamp).
  exists fields. split; [|exact Hstamp].
  unfold fetchWeather, try_catch, fetchWeather_try, and_then, eval.
  rewrite Hdata, Hv. unfold update, current, db_call. cbn -[lit].
  destruct (client_accepts (VObj fields)); reflexivity.
Qed.

(** C6, amended.  A fetch that ends in a network error, in a status outside
    2xx, or in a payload from which the snapshot cannot be read (the
    payload, its [main], [clouds] or [wind], or the first element of its
    [weather] is null or missing) leaves the stored snapshot as it was:
    [GET /api/weather] returns what it returned before, the database and
    the other caches are untouched, the failure is logged, and the promise
    of [fetchWeather] resolves, so nothing is raised to the scheduler. *)
Theorem C6_rejected_fetch_keeps_snapshot reply now s :
  Spec.rejected reply = true ->
  exists s' message,
    fetchWeather client_accepts reply now s = Normal tt s' /\
    weatherCache s' = weatherCache s /\
    GET_weather s' = GET_weather s /\
    db s' = db s /\
    latestReading s' = latestReading s /\
    predictionCache s' = predictionCache s /\
    console s' = console s ++ [Error_weather message].
Proof.
  intros H. destruct (rejected_throws reply now s H) as [m Hm].
  exists (log (Error_weather m) s), m.
  unfold fetchWeather, try_catch. rewrite Hm.
  repeat split.
Qed.

End WeatherFacts.

(** C6, as stated, fails.  After a good fetch, a reply with status 200 whose
    payload has every field of the wrong type is malformed, yet it replaces
    the stored snapshot: [GET /api/weather] no longer returns the prior
    one. *)
Lemma C6_wrong_typed_payload_replaces_snapshot :
  let good :=
    VObj [ (lit "main", VObj [ (lit "temp", number (324 # 10));
                               (lit "humidity", number 65) ]);
           (lit "clouds", VObj [ (lit "all", number 20) ]);
           (lit "weather", VArr [ VObj [ (lit "description",
                                          VStr (lit "few clouds")) ] ]);
           (lit "wind", VObj [ (lit "speed", number (32 # 10)) ]) ] in
  let bad :=
    VObj [ (lit "main", VObj [ (lit "temp", VStr (lit "warm"));
                               (lit "humidity", VStr (lit "high")) ]);
           (lit "clouds", VObj [ (lit "all", VStr (lit "some")) ]);
           (lit "weather", VArr [ VObj [ (lit "description", number 0) ] ]);
           (lit "wind", VObj [ (lit "speed", VStr (lit "calm")) ]) ] in
  exists s0 s1,
    fetchWeather Firebase.storable (Response 200 good) 1 (initial 0)
      = Normal tt s0 /\
    Spec.failing (Response 200 good) = false /\
    Spec.failing (Response 200 bad) = true /\
    fetchWeather Firebase.storable (Response 200 bad) 2 s0 = Normal tt s1 /\
    lookup_in (weatherCache s0) (lit "temp") = number (324 # 10) /\
    lookup_in (weatherCache s1) (lit "temp") = VStr (lit "warm") /\
    Firebase.weather (db s1) = weatherCache s1 /\
    GET_weather s1 <> GET_weather s0.
Proof.
  do 2 eexists. repeat split; try reflexivity. discriminate.
Qed.

Lemma C6_rejected_fetch_keeps_snapshot_witness :
  exists s',
    fetchWeather Firebase.storable (Response 503 VNull) 2 (initial 0)
      = Normal tt s' /\
    GET_weather s' = GET_weather (initial 0).
Proof.
  destruct (C6_rejected_fetch_keeps_snapshot Firebase.storable
              (Response 503 VNull) 2 (initial 0) eq_refl)
    as (s' & m & H1 & _ & H3 & _).
  exists s'; split; assumption.
Defined.

(* ================================================================== *)
(** ** Runs of the server *)
(* ================================================================== *)

Section RunFacts.

Variable client_accepts : value -> bool.

(** The exits of the serial handler and what each does to the state. *)
Lemma initSerial_onData_cases line now s :
  initSerial_onData client_accepts line now s = (NotJson, s) \/
  initSerial_onData client_accepts line now s = (Malformed, s) \/
  (exists text,
     initSerial_onData client_accepts line now s =
       (DeviceMessage text, log (Log_arduino text) s)) \/
  (exists o,
     Spec.taken line = true /\
     let data := VObj (assign o (lit "timestamp") (integer now)) in
     (initSerial_onData client_accepts line now s =
        (Malformed, with_latestReading data s) \/
      exists e,
        initSerial_onData client_accepts line now s =
          (Accepted data, log e (Spec.store data s)))).
Proof.
  destruct (startsWith (trim line) (lit "{")) eqn:Hb.
  2:{ left. unfold initSerial_onData. now rewrite Hb. }
  destruct (JSON.parse (trim line)) as [v|m] eqn:Hp.
  - destruct (parse_brace_object _ _ Hb Hp) as [o ->].
    rewrite (initSerial_onData_object client_accepts _ _ _ _ Hp).
    destruct (truthy (Spec.message_of o)) eqn:Ht.
    + right; right; left. eexists; reflexivity.
    + right; right; right. exists o. split.
      { unfold Spec.taken. now rewrite Hb, Hp, Ht. }
      cbv zeta. destruct (client_accepts _).
      * right. eexists; reflexivity.
      * left. reflexivity.
  - right; left.
    unfold initSerial_onData, initSerial_onData_try, and_then, eval.
    now rewrite Hb, Hp.
Qed.

(** What [runPrediction] computes, when it computes it, is an object. *)
Lemma prediction_object w r hour now v :
  prediction w r hour now = Ok v -> exists fields, v = VObj fields.
Proof.
  unfold prediction.
  repeat match goal with
         | |- context [bind (get ?v ?k) _] =>
             destruct (get v k); cbn [bind]; [|discriminate]
         end.
  intros H; injection H as <-. eexists. reflexivity.
Qed.

(** From objects it does compute it. *)
Lemma prediction_runs w r hour now :
  exists fields, prediction (VObj w) (VObj r) hour now = Ok (VObj fields).
Proof. unfold prediction. cbn [get bind]. eexists. reflexivity. Qed.

(** [runPrediction] throws before it assigns anything, or it replaces the
    prediction cache by what it computed, an object; the client refusing
    that, it throws there, and otherwise it writes it to the [prediction]
    path and logs. *)
Lemma runPrediction_cases hour now s :
  (exists m, runPrediction client_accepts hour now s = Abrupt m s) \/
  (exists fields,
     prediction (weatherCache s) (latestReading s) hour now
       = Ok (VObj fields) /\
     ((exists m,
         runPrediction client_accepts hour now s =
           Abrupt m (with_predictionCache (VObj fields) s)) \/
      (exists p,
         runPrediction client_accepts hour now s =
           Normal tt
             (log (Log_prediction p)
                (with_db (Firebase.set_prediction (VObj fields))
                   (with_predictionCache (VObj fields) s)))))).
Proof.
  unfold runPrediction, and_then, current, eval.
  destruct (prediction _ _ hour now) as [cache|m] eqn:Hc;
    [|left; eexists; reflexivity].
  destruct (prediction_object _ _ _ _ _ Hc) as [fields ->].
  right. exists fields. split; [reflexivity|].
  unfold update, db_call. cbn -[lit].
  destruct (client_accepts (VObj fields)).
  - right. eexists. reflexivity.
  - left. eexists. reflexivity.
Qed.

(** Whatever the client does, what was computed is what the cache holds
    when the job ends. *)
Lemma runPrediction_final hour now s cache :
  prediction (weatherCache s) (latestReading s) hour now = Ok cache ->
  predictionCache (final (runPrediction client_accepts hour now s)) = cache.
Proof.
  intros Hc. unfold runPrediction, and_then, current, eval.
  rewrite Hc. unfold update, db_call. cbn -[lit].
  destruct (client_accepts cache); [|reflexivity].
  destruct (get _ (lit "predicted_power")); reflexivity.
Qed.

(** The client taking what was computed, the job ends normally with the
    cache written to the [prediction] path. *)
Lemma runPrediction_written hour now s fields :
  prediction (weatherCache s) (latestReading s) hour now
    = Ok (VObj fields) ->
  client_accepts (VObj fields) = true ->
  exists s',
    runPrediction client_accepts hour now s = Normal tt s' /\
    predictionCache s' = VObj fields /\
    Firebase.prediction (db s') = VObj fields.
Proof.
  intros Hc Ha. unfold runPrediction, and_then, current, eval.
  rewrite Hc. unfold update, db_call. cbn -[lit]. rewrite Ha.
  eexists. repeat split.
Qed.

Lemma invariant_initial now : Spec.invariant (initial now).
Proof. repeat split; simpl; eauto. Qed.

Lemma stamped_stamp o now :
  Spec.stamped (VObj (assign o (lit "timestamp") (integer now))).
Proof.
  exists (inject_Z now). unfold Spec.timestamp_of.
  now rewrite lookup_assign_same.
Qed.

Lemma invariant_step i s :
  Spec.invariant s -> Spec.invariant (step client_accepts i s).
Proof.
  intros (Hr & Hw & Hh). destruct i as [line now|reply now|hour now]; simpl.
  - destruct (initSerial_onData_cases line now s)
      as [-> | [-> | [[text ->] | (o & _ & [-> | [e ->]])]]];
      [repeat split; assumption .. | |].
    + cbn -[lit]. split; [eexists; reflexivity|]. split; assumption.
    + cbn -[lit]. split; [eexists; reflexivity|]. split; [exact Hw|].
      apply Forall_app. split; [exact Hh|].
      apply Forall_cons; [apply stamped_stamp | apply Forall_nil].
  - destruct (fetchWeather_frame client_accepts reply now s)
      as (H1 & _ & H3 & H4).
    repeat split.
    + now rewrite H1.
    + destruct H4 as [H4 | ->]; assumption.
    + now rewrite H3.
  - destruct (runPrediction_cases hour now s)
      as [[m ->] | (fields & _ & [[m ->] | [p ->]])];
      repeat split; simpl; eauto.
Qed.

Lemma invariant_run inputs : forall s,
  Spec.invariant s -> Spec.invariant (run client_accepts inputs s).
Proof.
  induction inputs as [|i inputs IH]; intros s Hs; [exact Hs|].
  apply IH, invariant_step, Hs.
Qed.

(** In a state of a run the prediction job computes a cache, and the cache
    holds it when the job ends. *)
Lemma runPrediction_runs hour now s :
  Spec.invariant s ->
  exists fields,
    predictionCache (final (runPrediction client_accepts hour now s))
      = VObj fields.
Proof.
  intros ([r Hr] & [w Hw] & _).
  destruct (prediction_runs w r hour now) as [fields Hf].
  exists fields. apply runPrediction_final. now rewrite Hr, Hw.
Qed.




End RunFacts.

(** The scenario of section 8: a reading, a line that is not JSON, a device
    message and a second reading.  The latest reading is the second one and
    the history holds the two readings in the order they came. *)
Example end_to_end_scenario :
  let s :=
    run Firebase.storable
        [ Line (lit "{'voltage':5.0,'current':1000,'power':5.0,'angleH':90,'angleV':90,'light':50,'dustAlert':false,'dustRaw':700}") 1;
          Line (lit "garbage") 2;
          Line (lit "{'status':'ready'}") 3;
          Line (lit "{'voltage':5.0,'current':1000,'power':6.0,'angleH':90,'angleV':90,'light':50,'dustAlert':false,'dustRaw':700}") 4 ]
        (initial 0) in
  lookup_in (latestReading s) (lit "power") = number 6 /\
  map (fun v => lookup_in v (lit "power")) (Firebase.history (db s))
    = [number 5; number 6] /\
  exists l,
    GET_history (Some (lit "10")) s = success (VArr l) /\
    map (fun v => lookup_in v (lit "power")) l = [number 5; number 6].
Proof.
  vm_compute. repeat split. eexists. split; reflexivity.
Qed.

(** A line that the database client refuses, here for a key with a dot in
    it, still replaces the latest reading; the database is as before. *)
Example refused_line_scenario :
  let r :=
    initSerial_onData Firebase.storable (lit "{'power':5,'a.b':1}") 7
      (initial 0) in
  fst r = Malformed /\
  lookup_in (latestReading (snd r)) (lit "power") = number 5 /\
  db (snd r) = db (initial 0).
Proof. vm_compute. repeat split. Qed.





(* ================================================================== *)
(** ** Sorting *)
(* ================================================================== *)

Section SortFacts.

Context {A : Type}.
Variable cmp : A -> A -> result num.

(** The elements sorted all satisfy [P]; on them the comparator does not
    throw, and [after x y] tells whether its result is positive.  [R] is
    the order the result is sorted by. *)
Variable P : A -> Prop.
Variable after : A -> A -> bool.
Variable R : A -> A -> Prop.

Hypothesis cmp_after :
  forall x y, P x -> P y ->
    exists c, cmp x y = Ok c /\ Firebase.positive c = after x y.
Hypothesis not_after_R :
  forall x y, P x -> P y -> after x y = false -> R x y.
Hypothesis after_R :
  forall x y, P x -> P y -> after x y = true -> R y x.

Lemma insert_spec x l :
  P x -> Forall P l ->
  exists l',
    Firebase.insert cmp x l = Ok l' /\
    Permutation (x :: l) l' /\
    (Sorted R l ->
     Sorted R l' /\ forall z, R z x -> HdRel R z l -> HdRel R z l').
Proof.
  intros Hx Hl. induction l as [|y r IH]; simpl.
  - exists [x]. split; [reflexivity|]. split; [reflexivity|].
    intros _. split; [repeat constructor|].
    intros z Hz _. now constructor.
  - apply Forall_cons_iff in Hl as [Hy Hr].
    destruct (cmp_after x y Hx Hy) as (c & -> & Hc). simpl. rewrite Hc.
    destruct (after x y) eqn:E.
    + destruct (IH Hr) as (r' & -> & Hperm & Hsorted). simpl.
      exists (y :: r'). split; [reflexivity|]. split.
      * rewrite perm_swap. now apply perm_skip.
      * intros Hs. apply Sorted_inv in Hs as [Hs Hhd].
        destruct (Hsorted Hs) as [Hs' Hhd'].
        split.
        -- constructor; [exact Hs'|].
           apply Hhd'; [|exact Hhd]. now apply after_R.
        -- intros z _ Hz. apply HdRel_inv in Hz. now constructor.
    + exists (x :: y :: r). split; [reflexivity|].
      split; [reflexivity|]. intros Hs. split.
      * constructor; [exact Hs|]. constructor. now apply not_after_R.
      * intros z Hz _. now constructor.
Qed.

Lemma sort_by_spec l :
  Forall P l ->
  exists l',
    Firebase.sort_by cmp l = Ok l' /\ Permutation l l' /\ Sorted R l'.
Proof.
  induction l as [|x r IH]; intros Hl; simpl.
  - exists []. split; [reflexivity|]. split; constructor.
  - apply Forall_cons_iff in Hl as [Hx Hr].
    destruct (IH Hr) as (r' & -> & Hperm & Hsorted). simpl.
    assert (Hr' : Forall P r').
    { eapply Permutation_Forall; eassumption. }
    destruct (insert_spec x r' Hx Hr') as (l' & -> & Hperm' & Hs).
    exists l'. split; [reflexivity|]. split.
    + rewrite <- Hperm'. now apply perm_skip.
    + now apply Hs.
Qed.

End SortFacts.

(* ================================================================== *)
(** ** The history endpoint *)
(* ================================================================== *)

Section HistoryFacts.

Lemma last_n_length {A} n (l : list A) :
  List.length (Firebase.last_n n l) = Nat.min n (List.length l).
Proof. unfold Firebase.last_n. rewrite length_skipn. lia. Qed.

Lemma last_n_incl {A} n (l : list A) x : In x (Firebase.last_n n l) -> In x l.
Proof.
  unfold Firebase.last_n. intros H.
  rewrite <- (firstn_skipn (List.length l - n) l). apply in_or_app; now right.
Qed.

(** The query returns as many children as the limit allows, each of them a
    child of the path. *)
Lemma query_values_spec k n children :
  exists values,
    Firebase.query_values k n children = Ok values /\
    List.length values = Nat.min n (List.length children) /\
    forall v, In v values -> In v children.
Proof.
  unfold Firebase.query_values.
  set (keyed := combine (seq 0 (List.length children)) children).
  destruct (sort_by_spec (Firebase.by_child k) (fun _ => True)
              (fun a b => Firebase.after (Firebase.child k (snd a))
                                         (Firebase.child k (snd b)))
              (fun _ _ => True)) with (l := keyed)
    as (ordered & -> & Hperm & _); auto.
  { intros x y _ _. unfold Firebase.by_child.
    destruct (Firebase.after _ _); eexists; split; reflexivity. }
  { apply Forall_forall; auto. }
  simpl.
  destruct (sort_by_spec Firebase.by_key (fun _ => True)
              (fun a b => (fst b <? fst a)%nat) (fun _ _ => True))
    with (l := Firebase.last_n n ordered)
    as (selected & -> & Hperm' & _); auto.
  { intros x y _ _. unfold Firebase.by_key.
    destruct (fst y <? fst x)%nat; eexists; split; reflexivity. }
  { apply Forall_forall; auto. }
  simpl. exists (map snd selected). split; [reflexivity|]. split.
  - rewrite length_map, <- (Permutation_length Hperm'), last_n_length.
    rewrite <- (Permutation_length Hperm). subst keyed.
    rewrite length_combine, length_seq. lia.
  - intros v Hv. apply in_map_iff in Hv as ([i v'] & <- & Hin).
    apply (Permutation_in _ (Permutation_sym Hperm')) in Hin.
    apply last_n_incl in Hin.
    apply (Permutation_in _ (Permutation_sym Hperm)) in Hin.
    subst keyed. now apply in_combine_r in Hin.
Qed.

Lemma Qnum_pos q : (0 <? Qnum q) = true <-> (0 < q)%Q.
Proof.
  unfold Qlt; simpl. rewrite Z.ltb_lt. lia.
Qed.

Lemma by_timestamp_later a b :
  Spec.stamped a -> Spec.stamped b ->
  exists c, by_timestamp a b = Ok c /\ Firebase.positive c = Spec.later a b.
Proof.
  intros [x Hx] [y Hy]. unfold Spec.later. rewrite Hx, Hy.
  unfold Spec.timestamp_of in Hx, Hy.
  destruct a as [| | | | | |oa]; try discriminate.
  destruct b as [| | | | | |ob]; try discriminate.
  unfold by_timestamp; simpl.
  destruct (lookup oa _) as [| | |[| |x']| | |]; try discriminate.
  destruct (lookup ob _) as [| | |[| |y']| | |]; try discriminate.
  injection Hx as ->; injection Hy as ->.
  eexists; split; reflexivity.
Qed.

Lemma later_order a b :
  Spec.stamped a -> Spec.stamped b ->
  (Spec.later a b = false -> Spec.not_after a b) /\
  (Spec.later a b = true -> Spec.not_after b a).
Proof.
  intros [x Hx] [y Hy]. unfold Spec.later, Spec.not_after. rewrite Hx, Hy.
  destruct (0 <? Qnum (Qred (x - y))) eqn:E; split; try discriminate; intros _.
  - apply Qnum_pos in E. rewrite Qred_correct in E. lra.
  - assert (~ (0 < Qred (x - y))%Q) as H.
    { intros H; apply Qnum_pos in H; congruence. }
    rewrite Qred_correct in H. lra.
Qed.

Lemma not_after_trans a b c :
  Spec.not_after a b -> Spec.not_after b c -> Spec.not_after a c.
Proof.
  unfold Spec.not_after.
  destruct (Spec.timestamp_of a), (Spec.timestamp_of b),
    (Spec.timestamp_of c); try tauto.
  apply Qle_trans.
Qed.

Lemma stamped_defined v : Spec.stamped v -> Firebase.is_undefined v = false.
Proof. intros [q H]; destruct v; try discriminate; reflexivity. Qed.

Lemma Array_sort_by_timestamp l :
  Forall Spec.stamped l ->
  exists l',
    Firebase.Array_sort by_timestamp l = Ok l' /\
    Permutation l l' /\ StronglySorted Spec.not_after l'.
Proof.
  intros Hl. unfold Firebase.Array_sort.
  assert (Hfilter :
            filter (fun v => negb (Firebase.is_undefined v)) l = l /\
            filter Firebase.is_undefined l = []).
  { induction Hl as [|v l Hv _ [IH1 IH2]]; simpl; [now split|].
    now rewrite (stamped_defined v Hv), IH1. }
  destruct Hfilter as [-> ->].
  destruct (sort_by_spec by_timestamp Spec.stamped Spec.later Spec.not_after)
    with (l := l) as (l' & -> & Hperm & Hsorted); auto.
  - apply by_timestamp_later.
  - intros x y Hx Hy. apply (later_order x y Hx Hy).
  - intros x y Hx Hy. apply (later_order x y Hx Hy).
  - simpl. exists l'. rewrite app_nil_r. repeat split; try assumption.
    apply Sorted_StronglySorted; [|exact Hsorted].
    intros a b c. apply not_after_trans.
Qed.

Lemma parseInt_integer q :
  parseInt q = NaN \/ exists z, parseInt q = of_Z z.
Proof.
  unfold parseInt. destruct q as [s|]; [|now left].
  destruct (take_sign (trimStart s)) as [neg u].
  destruct (startsWith u (lit "0x") || startsWith u (lit "0X")).
  - destruct (take_digits 16 (skipn 2 u)) as [[|d ds] rest]; [now left|].
    right; eexists; reflexivity.
  - destruct (take_digits 10 u) as [[|d ds] rest]; [now left|].
    right; eexists; reflexivity.
Qed.

Lemma limit_of_nonzero q z :
  parseInt q = of_Z z -> z <> 0 -> limit_of q = integer z.
Proof.
  intros H Hz. unfold limit_of, or_else. rewrite H. simpl.
  unfold Qzero; simpl. destruct (Z.eqb_spec z 0); [contradiction|reflexivity].
Qed.

Lemma limit_of_default q :
  parseInt q = NaN \/ parseInt q = of_Z 0 -> limit_of q = integer 50.
Proof. intros [H|H]; unfold limit_of; now rewrite H. Qed.

Lemma limitToLast_integer z :
  Firebase.limitToLast (of_Z z) =
    if 0 <? z then Ok (Z.to_nat z)
    else Throw (lit "limitToLast: First argument must be a positive integer.").
Proof.
  unfold Firebase.limitToLast, of_Z. rewrite Qfloor_Z.
  assert (Qeq_bool (inject_Z z) (inject_Z z) = true) as ->
      by (apply Qeq_bool_iff; reflexivity).
  reflexivity.
Qed.

Lemma applied_limit_positive q z :
  parseInt q = of_Z z -> 0 < z -> Spec.applied_limit q = Ok (Z.to_nat z).
Proof.
  intros Hq Hz. unfold Spec.applied_limit.
  rewrite (limit_of_nonzero q z Hq) by lia.
  change (ToNumber (integer z)) with (of_Z z).
  rewrite limitToLast_integer.
  destruct (Z.ltb_spec 0 z); [reflexivity | lia].
Qed.

(** What the endpoint answers for a positive limit when every entry of the
    history has a numeric timestamp. *)
Lemma GET_history_positive q z s :
  parseInt q = of_Z z -> 0 < z ->
  Forall Spec.stamped (Firebase.history (db s)) ->
  exists l,
    GET_history q s = success (VArr l) /\
    List.length l = Nat.min (Z.to_nat z) (List.length (Firebase.history (db s))) /\
    StronglySorted Spec.not_after l /\
    forall v, In v l -> In v (Firebase.history (db s)).
Proof.
  intros Hq Hz Hh. unfold GET_history, GET_history_try.
  rewrite (limit_of_nonzero q z Hq) by lia.
  change (ToNumber (integer z)) with (of_Z z).
  rewrite limitToLast_integer.
  destruct (Z.ltb_spec 0 z); [|lia]. cbn [bind].
  destruct (query_values_spec (lit "timestamp") (Z.to_nat z)
              (Firebase.history (db s))) as (values & -> & Hlen & Hin).
  cbn [bind].
  assert (Hv : Forall Spec.stamped values).
  { apply Forall_forall. intros v Hv.
    apply (proj1 (Forall_forall _ _) Hh), Hin, Hv. }
  destruct (Array_sort_by_timestamp values Hv) as (l & -> & Hperm & Hsorted).
  cbn [bind]. exists l. split; [reflexivity|]. split; [|split].
  - now rewrite <- (Permutation_length Hperm).
  - exact Hsorted.
  - intros v Hl. apply Hin.
    apply (Permutation_in _ (Permutation_sym Hperm)), Hl.
Qed.

(** C8.  For a positive integer limit and a history whose entries are
    readings with a timestamp, [GET /api/history] answers with success and
    at most [limit] entries, all taken from the history, each one's
    timestamp not above that of any entry after it. *)
Theorem C8_history_bounded_and_sorted q z s :
  parseInt q = of_Z z -> 0 < z ->
  Forall Spec.stamped (Firebase.history (db s)) ->
  exists l,
    GET_history q s = success (VArr l) /\
    Z.of_nat (List.length l) <= z /\
    StronglySorted Spec.not_after l /\
    forall v, In v l -> In v (Firebase.history (db s)).
Proof.
  intros Hq Hz Hh.
  destruct (GET_history_positive q z s Hq Hz Hh) as (l & H1 & H2 & H3 & H4).
  exists l. repeat split; try assumption. lia.
Qed.

Lemma C8_history_bounded_and_sorted_witness :
  let s := run Firebase.storable
               [ Line (lit "{'power':1}") 5;
                 Line (lit "{'power':2}") 3;
                 Line (lit "{'power':3}") 9 ] (initial 0) in
  exists l,
    GET_history (Some (lit "2")) s = success (VArr l) /\
    Z.of_nat (List.length l) <= 2 /\
    StronglySorted Spec.not_after l.
Proof.
  destruct (C8_history_bounded_and_sorted (Some (lit "2")) 2
              (run Firebase.storable
                   [ Line (lit "{'power':1}") 5;
                     Line (lit "{'power':2}") 3;
                     Line (lit "{'power':3}") 9 ] (initial 0)))
    as (l & H1 & H2 & H3 & _).
  - reflexivity.
  - lia.
  - vm_compute. repeat (constructor; [eexists; reflexivity|]). constructor.
  - exists l. repeat split; assumption.
Defined.

(** Every state of a run has such a history, whatever the database client
    takes. *)
Lemma history_of_run_sorted client_accepts inputs now q z :
  parseInt q = of_Z z -> 0 < z ->
  exists l,
    GET_history q (run client_accepts inputs (initial now))
      = success (VArr l) /\
    Z.of_nat (List.length l) <= z /\
    StronglySorted Spec.not_after l.
Proof.
  intros Hq Hz.
  destruct (GET_history_positive q z
              (run client_accepts inputs (initial now)) Hq Hz)
    as (l & H1 & H2 & H3 & _).
  { apply invariant_run, invariant_initial. }
  exists l. repeat split; try assumption. lia.
Qed.

(** The limit for some values of the query parameter. *)
Example limit_examples :
  limit_of None = integer 50 /\
  limit_of (Some (lit "abc")) = integer 50 /\
  limit_of (Some (lit "0")) = integer 50 /\
  limit_of (Some (lit " 7")) = integer 7 /\
  limit_of (Some (lit "5.7")) = integer 5 /\
  limit_of (Some (lit "12px")) = integer 12 /\
  limit_of (Some (lit "0x1F")) = integer 31 /\
  limit_of (Some (lit "-3")) = integer (-3) /\
  status (GET_history (Some (lit "-3")) (initial 0)) = 500.
Proof. repeat split. Qed.

Lemma take_digits_zeros k :
  take_digits 10 (repeat 48%N k) = (repeat 0 k, []).
Proof.
  induction k as [|k IH]; simpl; [reflexivity|].
  change (digit 10 48) with (Some 0). now rewrite IH.
Qed.

Lemma digits_value_zeros k : forall acc,
  fold_left (fun a d => a * 10 + d) (repeat 0 k) acc = acc * 10 ^ Z.of_nat k.
Proof.
  induction k as [|k IH]; intros acc.
  - simpl. lia.
  - cbn [repeat fold_left]. rewrite IH.
    rewrite Nat2Z.inj_succ. rewrite Z.pow_succ_r by apply Nat2Z.is_nonneg.
    ring.
Qed.

Lemma parseInt_power_of_ten k :
  parseInt (Some (Spec.power_of_ten k)) = of_Z (10 ^ Z.of_nat k).
Proof.
  unfold parseInt, Spec.power_of_ten.
  change (trimStart (49%N :: repeat 48%N k)) with (49%N :: repeat 48%N k).
  change (take_sign (49%N :: repeat 48%N k))
    with (false, 49%N :: repeat 48%N k).
  cbv iota beta.
  change (startsWith (49%N :: repeat 48%N k) (lit "0x")) with false.
  change (startsWith (49%N :: repeat 48%N k) (lit "0X")) with false.
  cbn [orb]. cbv iota beta.
  change (take_digits 10 (49%N :: repeat 48%N k))
    with (let (ds, rest) := take_digits 10 (repeat 48%N k) in (1 :: ds, rest)).
  rewrite take_digits_zeros. cbv iota beta.
  unfold digits_value. cbn [fold_left].
  rewrite digits_value_zeros.
  replace ((0 * 10 + 1) * 10 ^ Z.of_nat k) with (10 ^ Z.of_nat k) by ring.
  reflexivity.
Qed.

(** C4, as stated, fails: no cap bounds the limit the store is queried
    with.  The limit "1000000" is applied as 1000000, and whatever the cap,
    the decimal text of a larger power of ten is applied unchanged. *)
Lemma C4_limit_has_no_cap :
  Spec.applied_limit (Some (lit "1000000")) = Ok (Z.to_nat 1000000) /\
  ~ exists cap : nat,
      forall q n, Spec.applied_limit q = Ok n -> (n <= cap)%nat.
Proof.
  split; [now apply applied_limit_positive|].
  intros [cap H].
  assert (Hbig : Spec.applied_limit (Some (Spec.power_of_ten cap))
                 = Ok (Z.to_nat (10 ^ Z.of_nat cap))).
  { apply applied_limit_positive; [apply parseInt_power_of_ten|].
    apply Z.pow_pos_nonneg; lia. }
  apply H in Hbig.
  pose proof (Z.pow_gt_lin_r 10 (Z.of_nat cap)). lia.
Qed.

(** C4, amended.  [GET /api/history] reads the limit with [parseInt].  When
    that gives no number, or zero, the limit is 50 (so it is when the
    parameter is absent).  A positive limit is the limit the store is
    queried with, whatever its size: nothing clamps it.  A negative limit is
    refused by the store and the answer has status 500. *)
Theorem C4_limit_default_and_no_clamp q s :
  Spec.applied_limit None = Ok 50%nat /\
  ((parseInt q = NaN /\ Spec.applied_limit q = Ok 50%nat) \/
   exists z,
     parseInt q = of_Z z /\
     ((z = 0 /\ Spec.applied_limit q = Ok 50%nat) \/
      (0 < z /\ Spec.applied_limit q = Ok (Z.to_nat z)) \/
      (z < 0 /\ status (GET_history q s) = 500))).
Proof.
  split; [reflexivity|].
  destruct (parseInt_integer q) as [Hq | [z Hq]].
  - left. split; [exact Hq|].
    unfold Spec.applied_limit. now rewrite limit_of_default by now left.
  - right. exists z. split; [exact Hq|].
    destruct (Z.lt_trichotomy z 0) as [Hz | [-> | Hz]].
    + right; right. split; [exact Hz|].
      unfold GET_history, GET_history_try.
      rewrite (limit_of_nonzero q z Hq) by lia.
      change (ToNumber (integer z)) with (of_Z z).
      rewrite limitToLast_integer.
      destruct (Z.ltb_spec 0 z); [lia | reflexivity].
    + left. split; [reflexivity|].
      unfold Spec.applied_limit. now rewrite limit_of_default by now right.
    + right; left. split; [exact Hz|].
      now apply applied_limit_positive.
Qed.

End HistoryFacts.

(* ================================================================== *)
(** ** The forecast engine *)
(* ================================================================== *)

Section ForecastFacts.

Variable client_accepts : value -> bool.














End ForecastFacts.



Section DoubleFacts.

(** On IEEE doubles the example of the specification gives the same. *)
Lemma binary64_example :
  Binary64.predicted_power (Binary64.of_int 10) (Binary64.of_int 0) 11
    = Binary64.of_int 10 /\
  Binary64.confidence (Binary64.of_int 0) = Binary64.of_int 90.
Proof. split; vm_compute; reflexivity. Qed.

(** For every whole cloud percentage the confidence computed on doubles is
    the exact one, and lies between 27 and 90. *)
Lemma binary64_confidence :
  forallb (fun c =>
             let k := Binary64.confidence (Binary64.of_int c) in
             PrimFloat.eqb k (Binary64.of_int (Spec.confidence (inject_Z c)))
             && PrimFloat.leb (Binary64.of_int 27) k
             && PrimFloat.leb k (Binary64.of_int 90))
          Spec.percentages = true.
Proof. vm_compute. reflexivity. Qed.

(** For the sample power, every whole cloud percentage, hour and offset,
    the prediction computed on doubles is the double nearest to the exact
    one. *)
Lemma binary64_forecast :
  forallb (fun x =>
             match x with
             | (c, h, i) =>
                 match Binary64.thousandths
                         (Binary64.predicted Binary64.sample_power
                            (Binary64.of_int c) h i) with
                 | Some n =>
                     Qeq_bool (n # 1000)
                       (Spec.forecast_entry (8421 # 1000) (inject_Z c) h i)
                 | None => false
                 end
             end)
          Spec.forecast_grid = true.
Proof. vm_compute. reflexivity. Qed.

End DoubleFacts.

(* ================================================================== *)
(** ** What a run leaves in the caches and in the database *)
(* ================================================================== *)

Section IngestionFacts.

Variable client_accepts : value -> bool.

Lemma trimStart_spaces pre l :
  forallb is_space pre = true -> trimStart (pre ++ l) = trimStart l.
Proof.
  induction pre as [|c pre IH]; simpl; [reflexivity|].
  intros H. apply andb_prop in H as [-> H]. now apply IH.
Qed.

Lemma trimStart_all_spaces l : forallb is_space l = true -> trimStart l = [].
Proof.
  intros H. rewrite <- (app_nil_r l). now rewrite trimStart_spaces.
Qed.

Lemma trimStart_app l post :
  trimStart (l ++ post) = trimStart l ++ post \/
  (trimStart l = [] /\ forallb is_space l = true).
Proof.
  induction l as [|c l IH]; simpl.
  - now right.
  - destruct (is_space c); [|now left].
    destruct IH as [IH | [IH1 IH2]]; [now left | now right].
Qed.

Lemma trimEnd_spaces l post :
  forallb is_space post = true -> trimEnd (l ++ post) = trimEnd l.
Proof.
  intros H. unfold trimEnd. rewrite rev_app_distr, trimStart_spaces;
    [reflexivity|].
  rewrite forallb_forall in *. intros x Hx. apply H. now apply in_rev.
Qed.

(** White space around a line does not count. *)
Lemma trim_pad pre line post :
  forallb is_space pre = true -> forallb is_space post = true ->
  trim (pre ++ line ++ post) = trim line.
Proof.
  intros Hpre Hpost. unfold trim. rewrite trimStart_spaces by exact Hpre.
  destruct (trimStart_app line post) as [-> | [Hl Hs]].
  - now apply trimEnd_spaces.
  - rewrite Hl. rewrite trimStart_spaces by exact Hs.
    now rewrite trimStart_all_spaces.
Qed.

(** X1.  The handler trims the line first, so white space before and after
    a line changes nothing of what the handler does with it; in particular
    the carriage return that the Arduino's [println] leaves at the end of
    each line. *)
Theorem initSerial_onData_ignores_padding pre line post now s :
  forallb is_space pre = true -> forallb is_space post = true ->
  initSerial_onData client_accepts (pre ++ line ++ post) now s =
  initSerial_onData client_accepts line now s.
Proof.
  intros Hpre Hpost. unfold initSerial_onData.
  now rewrite (trim_pad pre line post Hpre Hpost).
Qed.

(** X2.  A line that does not decode as JSON is dropped without a trace:
    it ends at the brace test or in the catch block, which is empty, and
    the whole state, console included, is as before. *)
Theorem initSerial_onData_drops_undecoded line now s message :
  JSON.parse (trim line) = Throw message ->
  initSerial_onData client_accepts line now s =
    (if startsWith (trim line) (lit "{") then Malformed else NotJson, s).
Proof.
  intros Hp. unfold initSerial_onData.
  destruct (startsWith (trim line) (lit "{")); cbn [negb]; [|reflexivity].
  unfold initSerial_onData_try, and_then, eval. now rewrite Hp.
Qed.










End IngestionFacts.

Lemma initSerial_onData_ignores_padding_witness :
  initSerial_onData Firebase.storable
    (lit "  " ++ lit "{'power':5}" ++ [13%N]) 7 (initial 0) =
  initSerial_onData Firebase.storable (lit "{'power':5}") 7 (initial 0).
Proof.
  apply (initSerial_onData_ignores_padding Firebase.storable
           (lit "  ") (lit "{'power':5}") [13%N] 7 (initial 0));
    reflexivity.
Defined.

Lemma initSerial_onData_drops_undecoded_witness :
  initSerial_onData Firebase.storable (lit "{'voltage':5.8,'curr") 7
    (initial 0) = (Malformed, initial 0).
Proof.
  apply (initSerial_onData_drops_undecoded Firebase.storable
           (lit "{'voltage':5.8,'curr") 7 (initial 0)
           (lit "Unexpected token in JSON")).
  reflexivity.
Defined.


(* ================================================================== *)
(** ** What a weather reply stores *)
(* ================================================================== *)

Section SnapshotFacts.

Variable client_accepts : value -> bool.

(** The object literal of [fetchWeather], for a payload that can be
    read. *)
Lemma weather_snapshot_fields data now :
  Spec.unreadable data = false ->
  weather_snapshot data now = Ok (Spec.snapshot_fields data now).
Proof.
  unfold Spec.unreadable, weather_snapshot, Spec.snapshot_fields,
    Spec.field, Spec.first.
  intros H.
  repeat (apply orb_false_elim in H; destruct H as [H ?]).
  cbn -[lit] in H.
  destruct (get_present data (lit "main") H) as [main Hmain].
  destruct (get_present data (lit "clouds") H) as [clouds Hclouds].
  destruct (get_present data (lit "weather") H) as [weather Hweather].
  destruct (get_present data (lit "wind") H) as [wind Hwind].
  rewrite Hmain, Hclouds, Hweather, Hwind in *. cbn [bind] in *.
  destruct (get_present main (lit "temp")) as [temp ->]; [assumption|].
  destruct (get_present main (lit "humidity")) as [humidity ->]; [assumption|].
  destruct (get_present clouds (lit "all")) as [all ->]; [assumption|].
  destruct (get0_present weather) as [weather0 Hw0]; [assumption|].
  rewrite Hw0 in *. cbn [bind] in *.
  destruct (get_present weather0 (lit "description")) as [description ->];
    [assumption|].
  destruct (get_present wind (lit "speed")) as [speed ->]; [assumption|].
  reflexivity.
Qed.


(** X8.  When the database client refuses the snapshot (a field that the
    payload lacks reads as [undefined], which the database does not store),
    the cache is replaced all the same: [GET /api/weather] answers with the
    new snapshot while the database keeps what it had, and the failure is
    logged as a failed fetch. *)
Theorem fetchWeather_refused_snapshot st data now s :
  (200 <=? st) && (st <? 300) = true ->
  Spec.unreadable data = false ->
  client_accepts (Spec.snapshot_fields data now) = false ->
  exists s' message,
    fetchWeather client_accepts (Response st data) now s = Normal tt s' /\
    GET_weather s' = success (Spec.snapshot_fields data now) /\
    db s' = db s /\
    console s' = console s ++ [Error_weather message] /\
    latestReading s' = latestReading s /\
    predictionCache s' = predictionCache s.
Proof.
  intros Hst Hd Ha.
  unfold fetchWeather, try_catch, fetchWeather_try, and_then, eval.
  cbn [axios_get]. rewrite Hst, (weather_snapshot_fields data now Hd).
  unfold update, current, db_call. cbn -[lit Spec.snapshot_fields].
  rewrite Ha. cbn -[lit]. do 2 eexists. repeat split.
Qed.

End SnapshotFacts.


Lemma fetchWeather_refused_snapshot_witness :
  let data :=
    VObj [ (lit "main", VObj [ (lit "humidity", number 65) ]);
           (lit "clouds", VObj [ (lit "all", number 20) ]);
           (lit "weather", VArr [ VObj [ (lit "description",
                                          VStr (lit "few clouds")) ] ]);
           (lit "wind", VObj [ (lit "speed", number (32 # 10)) ]) ] in
  exists s',
    fetchWeather Firebase.storable (Response 200 data) 9 (initial 0)
      = Normal tt s' /\
    lookup_in (weatherCache s') (lit "clouds") = number 20 /\
    lookup_in (weatherCache s') (lit "temp") = VUndefined /\
    db s' = db (initial 0).
Proof.
  cbv zeta.
  destruct (fetchWeather_refused_snapshot Firebase.storable 200
              (VObj [ (lit "main", VObj [ (lit "humidity", number 65) ]);
                      (lit "clouds", VObj [ (lit "all", number 20) ]);
                      (lit "weather",
                       VArr [ VObj [ (lit "description",
                                      VStr (lit "few clouds")) ] ]);
                      (lit "wind", VObj [ (lit "speed", number (32 # 10)) ]) ])
              9 (initial 0) eq_refl eq_refl eq_refl)
    as (s' & m & H1 & H2 & H3 & _).
  exists s'. split; [exact H1|].
  unfold GET_weather in H2. injection H2 as H2. rewrite H2.
  repeat split. exact H3.
Defined.

(* ================================================================== *)
(** ** Bounds, defaults and failures of the prediction *)
(* ================================================================== *)

Section PredictionFacts.

Variable client_accepts : value -> bool.















End PredictionFacts.











(* ================================================================== *)
(** ** Which entries the history endpoint returns *)
(* ================================================================== *)

Section NewestFacts.

Lemma map_snd_combine {A B} (l1 : list A) : forall (l2 : list B),
  List.length l1 = List.length l2 -> map snd (combine l1 l2) = l2.
Proof.
  induction l1 as [|a l1 IH]; intros [|b l2] H; try discriminate;
    [reflexivity|].
  cbn. f_equal. apply IH. now injection H.
Qed.

Lemma StronglySorted_cross {A} (R : A -> A -> Prop) (l1 l2 : list A) :
  StronglySorted R (l1 ++ l2) ->
  forall a b, In a l1 -> In b l2 -> R a b.
Proof.
  induction l1 as [|x l1 IH]; intros Hs a b Ha Hb; [contradiction|].
  cbn [app] in Hs. apply StronglySorted_inv in Hs as [Hs Hx].
  destruct Ha as [<- | Ha].
  - apply (proj1 (Forall_forall _ _) Hx). apply in_or_app. now right.
  - now apply IH.
Qed.

(** Under [orderByChild('timestamp')] a later timestamp sorts after. *)
Lemma after_child_later a b :
  Spec.stamped a -> Spec.stamped b ->
  Firebase.after (Firebase.child (lit "timestamp") a)
                 (Firebase.child (lit "timestamp") b) = Spec.later a b.
Proof.
  intros [x Hx] [y Hy]. unfold Spec.later. rewrite Hx, Hy.
  unfold Spec.timestamp_of in Hx, Hy.
  destruct a as [| | | | | |oa]; try discriminate.
  destruct b as [| | | | | |ob]; try discriminate.
  unfold Firebase.child.
  destruct (lookup oa _) as [| | |[| |x']| | |]; try discriminate.
  destruct (lookup ob _) as [| | |[| |y']| | |]; try discriminate.
  injection Hx as ->; injection Hy as ->. reflexivity.
Qed.

(** The query keeps the children with the latest timestamps. *)
Lemma query_values_newest n children :
  Forall Spec.stamped children ->
  exists older values,
    Firebase.query_values (lit "timestamp") n children = Ok values /\
    List.length values = Nat.min n (List.length children) /\
    Permutation (older ++ values) children /\
    forall a b, In a older -> In b values -> Spec.not_after a b.
Proof.
  intros Hc. unfold Firebase.query_values.
  set (keyed := combine (seq 0 (List.length children)) children).
  assert (Hsnd : map snd keyed = children).
  { subst keyed. apply map_snd_combine. apply length_seq. }
  assert (Hk : Forall (fun x => Spec.stamped (snd x)) keyed).
  { apply Forall_forall. intros x Hx.
    apply (proj1 (Forall_forall _ _) Hc). rewrite <- Hsnd.
    now apply in_map. }
  destruct (sort_by_spec (Firebase.by_child (lit "timestamp"))
              (fun x => Spec.stamped (snd x))
              (fun a b => Spec.later (snd a) (snd b))
              (fun a b => Spec.not_after (snd a) (snd b)))
    with (l := keyed) as (ordered & -> & Hperm & Hsorted).
  { intros x y Hx Hy. unfold Firebase.by_child.
    rewrite (after_child_later _ _ Hx Hy).
    destruct (Spec.later (snd x) (snd y)); eexists; split; reflexivity. }
  { intros x y Hx Hy. apply (later_order _ _ Hx Hy). }
  { intros x y Hx Hy. apply (later_order _ _ Hx Hy). }
  { exact Hk. }
  cbn [bind].
  destruct (sort_by_spec Firebase.by_key (fun _ => True)
              (fun a b => (fst b <? fst a)%nat) (fun _ _ => True))
    with (l := Firebase.last_n n ordered)
    as (selected & -> & Hperm' & _); auto.
  { intros x y _ _. unfold Firebase.by_key.
    destruct (fst y <? fst x)%nat; eexists; split; reflexivity. }
  { apply Forall_forall; auto. }
  cbn [bind].
  set (k := (List.length ordered - n)%nat).
  assert (Hsplit : ordered = firstn k ordered ++ Firebase.last_n n ordered).
  { unfold Firebase.last_n. fold k. symmetry. apply firstn_skipn. }
  assert (Hstrong : StronglySorted
                      (fun a b => Spec.not_after (snd a) (snd b))
                      (firstn k ordered ++ Firebase.last_n n ordered)).
  { rewrite <- Hsplit. apply Sorted_StronglySorted; [|exact Hsorted].
    intros a b c. apply not_after_trans. }
  exists (map snd (firstn k ordered)), (map snd selected).
  split; [reflexivity|]. split; [|split].
  - rewrite length_map, <- (Permutation_length Hperm'), last_n_length.
    rewrite <- (Permutation_length Hperm). subst keyed.
    rewrite length_combine, length_seq. lia.
  - rewrite <- map_app, <- Hsnd. apply Permutation_map.
    apply Permutation_sym, (Permutation_trans Hperm).
    apply (Permutation_trans
             (l' := firstn k ordered ++ Firebase.last_n n ordered)).
    + rewrite <- Hsplit. apply Permutation_refl.
    + apply Permutation_app_head. exact Hperm'.
  - intros a b Ha Hb.
    apply in_map_iff in Ha as (x & <- & Hx).
    apply in_map_iff in Hb as (y & <- & Hy).
    apply (StronglySorted_cross _ _ _ Hstrong x y Hx).
    apply (Permutation_in _ (Permutation_sym Hperm')), Hy.
Qed.

(** What the endpoint answers when the store is queried with the limit
    [n] and every entry of the history has a numeric timestamp. *)
Lemma GET_history_newest q n s :
  Spec.applied_limit q = Ok n ->
  Forall Spec.stamped (Firebase.history (db s)) ->
  exists older l,
    GET_history q s = success (VArr l) /\
    List.length l = Nat.min n (List.length (Firebase.history (db s))) /\
    StronglySorted Spec.not_after l /\
    Permutation (older ++ l) (Firebase.history (db s)) /\
    forall a b, In a older -> In b l -> Spec.not_after a b.
Proof.
  intros Hn Hh. unfold GET_history, GET_history_try.
  unfold Spec.applied_limit in Hn. rewrite Hn. cbn [bind].
  destruct (query_values_newest n (Firebase.history (db s)) Hh)
    as (older & values & -> & Hlen & Hperm & Hcross).
  cbn [bind].
  assert (Hv : Forall Spec.stamped values).
  { apply Forall_forall. intros v Hv.
    apply (proj1 (Forall_forall _ _) Hh).
    apply (Permutation_in _ Hperm). apply in_or_app. now right. }
  destruct (Array_sort_by_timestamp values Hv) as (l & -> & Hperm' & Hsorted).
  cbn [bind]. exists older, l. split; [reflexivity|]. split; [|split; [|split]].
  - now rewrite <- (Permutation_length Hperm').
  - exact Hsorted.
  - rewrite <- Hperm. apply Permutation_app_head. now apply Permutation_sym.
  - intros a b Ha Hb. apply (Hcross a b Ha).
    apply (Permutation_in _ (Permutation_sym Hperm')), Hb.
Qed.

(** X14.  For a positive limit, [GET /api/history] answers with as many
    entries as the limit allows and the history has, and they are the
    newest: the history is the entries left out and the entries returned,
    and no entry left out has a timestamp after that of an entry
    returned. *)
Theorem GET_history_returns_newest q z s :
  parseInt q = of_Z z -> 0 < z ->
  Forall Spec.stamped (Firebase.history (db s)) ->
  exists older l,
    GET_history q s = success (VArr l) /\
    List.length l =
      Nat.min (Z.to_nat z) (List.length (Firebase.history (db s))) /\
    Permutation (older ++ l) (Firebase.history (db s)) /\
    forall a b, In a older -> In b l -> Spec.not_after a b.
Proof.
  intros Hq Hz Hh.
  destruct (GET_history_newest q (Z.to_nat z) s
              (applied_limit_positive q z Hq Hz) Hh)
    as (older & l & H1 & H2 & _ & H4 & H5).
  exists older, l. repeat split; assumption.
Qed.

(** X15.  When the limit parameter is absent, does not start with a
    number, or is 0, the endpoint answers as for a limit of 50: with the
    50 newest entries, or the whole history when it has fewer, sorted by
    timestamp. *)
Theorem GET_history_default_limit q s :
  parseInt q = NaN \/ parseInt q = of_Z 0 ->
  Forall Spec.stamped (Firebase.history (db s)) ->
  exists l,
    GET_history q s = success (VArr l) /\
    GET_history (Some (lit "50")) s = success (VArr l) /\
    List.length l = Nat.min 50 (List.length (Firebase.history (db s))) /\
    StronglySorted Spec.not_after l.
Proof.
  intros Hq Hh.
  assert (Hn : Spec.applied_limit q = Ok 50%nat).
  { unfold Spec.applied_limit. now rewrite (limit_of_default q Hq). }
  destruct (GET_history_newest q 50 s Hn Hh)
    as (older & l & H1 & H2 & H3 & _).
  exists l. split; [exact H1|]. split; [|split; assumption].
  rewrite <- H1. unfold GET_history, GET_history_try.
  now rewrite (limit_of_default q Hq).
Qed.

End NewestFacts.

Lemma GET_history_returns_newest_witness :
  let s := run Firebase.storable
               [ Line (lit "{'power':1}") 5;
                 Line (lit "{'power':2}") 3;
                 Line (lit "{'power':3}") 9 ] (initial 0) in
  exists older l,
    GET_history (Some (lit "2")) s = success (VArr l) /\
    List.length l = 2%nat /\
    Permutation (older ++ l) (Firebase.history (db s)).
Proof.
  destruct (GET_history_returns_newest (Some (lit "2")) 2
              (run Firebase.storable
                   [ Line (lit "{'power':1}") 5;
                     Line (lit "{'power':2}") 3;
                     Line (lit "{'power':3}") 9 ] (initial 0)))
    as (older & l & H1 & H2 & H3 & _).
  - reflexivity.
  - lia.
  - vm_compute. repeat (constructor; [eexists; reflexivity|]). constructor.
  - exists older, l. split; [exact H1|]. split; [exact H2 | exact H3].
Defined.

Lemma GET_history_default_limit_witness :
  let s := run Firebase.storable
               [ Line (lit "{'power':1}") 5;
                 Line (lit "{'power':2}") 3 ] (initial 0) in
  exists l,
    GET_history (Some (lit "all")) s = success (VArr l) /\
    List.length l = 2%nat.
Proof.
  destruct (GET_history_default_limit (Some (lit "all"))
              (run Firebase.storable
                   [ Line (lit "{'power':1}") 5;
                     Line (lit "{'power':2}") 3 ] (initial 0)))
    as (l & H1 & _ & H3 & _).
  - left. reflexivity.
  - vm_compute. repeat (constructor; [eexists; reflexivity|]). constructor.
  - exists l. split; [exact H1 | exact H3].
Defined.

(* ================================================================== *)
(** ** The tracker sketch *)
(* ================================================================== *)

Section SketchFacts.

Import Sketch.

Lemma int16_small z : -32768 <= z < 32768 -> int16 z = z.
Proof. intros H. unfold int16. rewrite Z.mod_small; lia. Qed.

Lemma int32_small z : -2147483648 <= z < 2147483648 -> int32 z = z.
Proof. intros H. unfold int32. rewrite Z.mod_small; lia. Qed.

Lemma constrain_range amt low high :
  low <= high -> low <= constrain amt low high <= high.
Proof.
  intros H. unfold constrain.
  destruct (Z.ltb_spec amt low); [lia|].
  destruct (Z.gtb_spec amt high); lia.
Qed.

(** The mean of two reads, as the sketch computes it. *)
Lemma half_sum a b :
  0 <= a <= 1023 -> 0 <= b <= 1023 ->
  int16 (Z.quot (int16 (a + b)) 2) = (a + b) / 2 /\
  0 <= (a + b) / 2 <= 1023.
Proof.
  intros Ha Hb. rewrite (int16_small (a + b)) by lia.
  rewrite Z.quot_div_nonneg by lia.
  assert (H : 0 <= (a + b) / 2 <= 1023).
  { split; [apply Z.div_pos; lia|].
    apply Z.div_le_upper_bound; lia. }
  rewrite int16_small by lia. split; [reflexivity | exact H].
Qed.

(** One servo's share of [trackSun], exactly. *)
Lemma steer_exact e angle low high :
  -1023 <= e <= 1023 -> low <= angle <= high -> 0 <= low -> high <= 180 ->
  (if abs e >? TOLERANCE
   then if e >? 0 then constrain (int16 (angle + SERVO_STEP)) low high
        else constrain (int16 (angle - SERVO_STEP)) low high
   else angle) = steered e angle low high /\
  (abs e >? TOLERANCE) = negb (Z.abs e <=? TOLERANCE).
Proof.
  intros He Ha Hl Hh. unfold abs, steered, constrain, TOLERANCE, SERVO_STEP.
  destruct (Z.gtb_spec e 0) as [Hpos|Hneg].
  - destruct (Z.gtb_spec e 30), (Z.leb_spec (Z.abs e) 30); try lia;
      split; try reflexivity.
    destruct (Z.ltb_spec 0 e); [|lia].
    rewrite int16_small by lia.
    destruct (Z.ltb_spec (angle + 1) low); [lia|].
    destruct (Z.gtb_spec (angle + 1) high); lia.
  - rewrite (int16_small (- e)) by lia.
    destruct (Z.gtb_spec (- e) 30), (Z.leb_spec (Z.abs e) 30); try lia;
      split; try reflexivity.
    destruct (Z.ltb_spec 0 e); [lia|].
    rewrite int16_small by lia.
    destruct (Z.ltb_spec (angle - 1) low); [lia|].
    destruct (Z.gtb_spec (angle - 1) high); lia.
Qed.

(** X16.  On reads of 10 bits and angles inside the limits no [int] of
    [trackSun] overflows, and the function does what its arithmetic says
    on the integers: each servo stays where it is while the difference of
    the two means it is steered by is at most 30, and otherwise moves one
    degree toward the brighter side, stopping at its limit; a servo is
    written only when it is steered. *)
Theorem trackSun_exact r s :
  analog r -> within_limits s ->
  trackSun r s =
    ({| angleH := steered (horizError r) (angleH s) SERVO_H_MIN SERVO_H_MAX;
        angleV := steered (vertError r) (angleV s) SERVO_V_MIN SERVO_V_MAX;
        lastTrackTime := lastTrackTime s;
        lastReportTime := lastReportTime s |},
     (if Z.abs (vertError r) <=? TOLERANCE then []
      else [ServoV (steered (vertError r) (angleV s)
                            SERVO_V_MIN SERVO_V_MAX)])
     ++ (if Z.abs (horizError r) <=? TOLERANCE then []
         else [ServoH (steered (horizError r) (angleH s)
                               SERVO_H_MIN SERVO_H_MAX)])).
Proof.
  intros (Htl & Htr & Hbl & Hbr & _) [HH HV].
  unfold SERVO_H_MIN, SERVO_H_MAX, SERVO_V_MIN, SERVO_V_MAX in *.
  unfold trackSun, vertError, horizError. cbv zeta.
  destruct (half_sum _ _ Htl Htr) as [-> Htop].
  destruct (half_sum _ _ Hbl Hbr) as [-> Hbot].
  destruct (half_sum _ _ Htl Hbl) as [-> Hleft].
  destruct (half_sum _ _ Htr Hbr) as [-> Hright].
  set (ve := (LDR_TOP_LEFT r + LDR_TOP_RIGHT r) / 2
             - (LDR_BOT_LEFT r + LDR_BOT_RIGHT r) / 2) in *.
  set (he := (LDR_TOP_LEFT r + LDR_BOT_LEFT r) / 2
             - (LDR_TOP_RIGHT r + LDR_BOT_RIGHT r) / 2) in *.
  rewrite (int16_small ve), (int16_small he) by (subst ve he; lia).
  destruct (steer_exact ve (angleV s) SERVO_V_MIN SERVO_V_MAX)
    as [EV BV]; [lia | exact HV | unfold SERVO_V_MIN; lia
                 | unfold SERVO_V_MAX; lia |].
  destruct (steer_exact he (angleH s) SERVO_H_MIN SERVO_H_MAX)
    as [EH BH]; [lia | exact HH | unfold SERVO_H_MIN; lia
                 | unfold SERVO_H_MAX; lia |].
  unfold SERVO_H_MIN, SERVO_H_MAX, SERVO_V_MIN, SERVO_V_MAX in *.
  rewrite BV in *. rewrite BH in *.
  destruct (Z.abs ve <=? TOLERANCE); cbn [negb] in *;
    destruct (Z.abs he <=? TOLERANCE); cbn [negb] in *;
    cbn [angleH angleV lastTrackTime lastReportTime app];
    rewrite <- ?EV, <- ?EH; destruct s; reflexivity.
Qed.


(** Whatever the reads, [trackSun] keeps angles that are inside the limits
    inside them and writes no other angle to a servo. *)
Lemma trackSun_limits r s :
  within_limits s ->
  within_limits (fst (trackSun r s)) /\
  Forall allowed (snd (trackSun r s)) /\
  lastTrackTime (fst (trackSun r s)) = lastTrackTime s /\
  lastReportTime (fst (trackSun r s)) = lastReportTime s.
Proof.
  intros [HH HV]. unfold trackSun. cbv zeta.
  assert (CV : forall amt,
            SERVO_V_MIN <= constrain amt SERVO_V_MIN SERVO_V_MAX <= SERVO_V_MAX)
    by (intros; apply constrain_range; unfold SERVO_V_MIN, SERVO_V_MAX; lia).
  assert (CH : forall amt,
            SERVO_H_MIN <= constrain amt SERVO_H_MIN SERVO_H_MAX <= SERVO_H_MAX)
    by (intros; apply constrain_range; unfold SERVO_H_MIN, SERVO_H_MAX; lia).
  destruct (abs _ >? TOLERANCE); destruct (abs _ >? TOLERANCE);
    cbn [fst snd angleH angleV lastTrackTime lastReportTime app];
    repeat match goal with
           | |- context [if ?c then _ else _] => destruct c
           end;
    unfold within_limits; cbn [angleH angleV];
    repeat split;
    repeat (apply Forall_cons; [cbn [allowed]|]);
    try apply Forall_nil; try apply CV; try apply CH; tauto.
Qed.

Lemma loop_limits now t rp f s :
  within_limits s ->
  within_limits (fst (loop now t rp f s)) /\
  Forall allowed (snd (loop now t rp f s)).
Proof.
  intros Hs. unfold loop.
  set (s0 := {| angleH := angleH s; angleV := angleV s;
                lastTrackTime := now; lastReportTime := lastReportTime s |}).
  assert (Hs0 : within_limits s0) by exact Hs.
  destruct (trackSun_limits t s0 Hs0) as (Ht & Ha & _).
  destruct (uint32 (now - lastTrackTime s) >=? TRACK_INTERVAL).
  - destruct (trackSun t s0) as [s1 out1]. cbn [fst snd] in *.
    destruct (uint32 (now - lastReportTime s1) >=? REPORT_INTERVAL);
      cbn [fst snd]; split; try exact Ht.
    + apply Forall_app. split; [exact Ha|].
      apply Forall_cons; [exact I | apply Forall_nil].
    + rewrite app_nil_r. exact Ha.
  - destruct (uint32 (now - lastReportTime s) >=? REPORT_INTERVAL);
      cbn [fst snd]; split; try exact Hs.
    + apply Forall_cons; [exact I | apply Forall_nil].
    + apply Forall_nil.
Qed.

Lemma run_limits passes : forall s out,
  within_limits s -> Forall allowed out ->
  let r := fold_left
             (fun acc p =>
                let '(s', o) :=
                  loop (millis p) (tracked p) (reported p) (floats p)
                       (fst acc) in
                (s', snd acc ++ o))
             passes (s, out) in
  within_limits (fst r) /\ Forall allowed (snd r).
Proof.
  induction passes as [|p passes IH]; intros s out Hs Hout.
  - now split.
  - cbn [fold_left fst snd].
    destruct (loop_limits (millis p) (tracked p) (reported p) (floats p) s Hs)
      as [H1 H2].
    destruct (loop _ _ _ _ s) as [s' o]. cbn [fst snd] in *.
    apply IH; [exact H1|]. apply Forall_app. now split.
Qed.

(** X17.  From power-up on, whatever the sensors read and whenever [loop]
    runs, the angles stay inside the limits of the servos (0 to 180 and 60
    to 120) and no servo is ever told an angle outside them. *)
Theorem run_within_limits passes :
  within_limits (fst (run passes initial)) /\
  Forall allowed (snd (run passes initial)).
Proof.
  apply (run_limits passes initial []); [|apply Forall_nil].
  unfold within_limits, SERVO_H_MIN, SERVO_H_MAX, SERVO_V_MIN, SERVO_V_MAX.
  cbn. lia.
Qed.

(** X18.  On reads of 10 bits the light percentage that [reportData]
    prints is the mean of the four light sensors scaled from 0..1023 to
    0..100 and rounded down; it lies between 0 and 100, and it is 100 only
    when all four sensors read 1023. *)
Theorem lightPct_range r :
  analog r ->
  let sum := LDR_TOP_LEFT r + LDR_TOP_RIGHT r
             + LDR_BOT_LEFT r + LDR_BOT_RIGHT r in
  lightPct r = (sum / 4) * 100 / 1023 /\
  0 <= lightPct r <= 100 /\
  (lightPct r = 100 <-> sum = 4092).
Proof.
  intros (Htl & Htr & Hbl & Hbr & _). cbv zeta.
  set (sum := LDR_TOP_LEFT r + LDR_TOP_RIGHT r
              + LDR_BOT_LEFT r + LDR_BOT_RIGHT r).
  assert (Hsum : 0 <= sum <= 4092) by (subst sum; lia).
  assert (Havg : ldrAvg r = sum / 4 /\ 0 <= sum / 4 <= 1023).
  { unfold ldrAvg.
    rewrite (int16_small (LDR_TOP_LEFT r + LDR_TOP_RIGHT r)) by lia.
    rewrite (int16_small (LDR_TOP_LEFT r + LDR_TOP_RIGHT r + LDR_BOT_LEFT r))
      by lia.
    fold sum. rewrite (int16_small sum) by lia.
    rewrite Z.quot_div_nonneg by lia.
    assert (H : 0 <= sum / 4 <= 1023).
    { split; [apply Z.div_pos; lia | apply Z.div_le_upper_bound; lia]. }
    rewrite int16_small by lia. now split. }
  destruct Havg as [Havg Hrange].
  assert (Hpct : lightPct r = (sum / 4) * 100 / 1023).
  { unfold lightPct, map. rewrite Havg.
    rewrite (int32_small (sum / 4 - 0)) by lia.
    rewrite (int32_small (100 - 0)), (int32_small (1023 - 0)) by lia.
    replace (sum / 4 - 0) with (sum / 4) by lia.
    change (100 - 0) with 100. change (1023 - 0) with 1023.
    rewrite (int32_small (sum / 4 * 100)) by lia.
    rewrite Z.quot_div_nonneg by lia.
    assert (H : 0 <= sum / 4 * 100 / 1023 <= 100).
    { split; [apply Z.div_pos; lia | apply Z.div_le_upper_bound; lia]. }
    rewrite (int32_small (sum / 4 * 100 / 1023)) by lia.
    rewrite Z.add_0_r, int32_small by lia. apply int16_small. lia. }
  rewrite Hpct. split; [reflexivity|].
  split; [split; [apply Z.div_pos; lia | apply Z.div_le_upper_bound; lia]|].
  split; intros H.
  - assert (H1 : 1023 <= sum / 4).
    { destruct (Z.le_gt_cases 1023 (sum / 4)) as [|Hlt]; [assumption|].
      assert (sum / 4 * 100 / 1023 < 100)
        by (apply Z.div_lt_upper_bound; lia).
      lia. }
    assert (H2 : 4 * (sum / 4) <= sum) by (apply Z.mul_div_le; lia).
    lia.
  - rewrite H. reflexivity.
Qed.

Lemma uint32_elapsed last d :
  0 <= last < 4294967296 -> 0 <= d < 4294967296 ->
  uint32 (uint32 (last + d) - last) = d.
Proof.
  intros Hl Hd. unfold uint32. rewrite Zminus_mod_idemp_l.
  replace (last + d - last) with d by lia. now apply Z.mod_small.
Qed.

(** X19.  The two timers of [loop] survive the wrap-around of [millis()]:
    with [dt] and [dr] the milliseconds since the last tracking and the
    last report, each below 2^32, a pass tracks exactly when [dt] is at
    least 500 and reports exactly when [dr] is at least 2000.  A pass that
    does not track moves no servo and keeps the angles; a pass prints one
    line when it reports and none otherwise. *)
Theorem loop_timing now t rp f s dt dr :
  0 <= lastTrackTime s < 4294967296 ->
  0 <= lastReportTime s < 4294967296 ->
  0 <= dt < 4294967296 -> 0 <= dr < 4294967296 ->
  now = uint32 (lastTrackTime s + dt) ->
  now = uint32 (lastReportTime s + dr) ->
  exists servo_out,
    let s' := fst (loop now t rp f s) in
    lastTrackTime s' = (if dt <? 500 then lastTrackTime s else now) /\
    lastReportTime s' = (if dr <? 2000 then lastReportTime s else now) /\
    snd (loop now t rp f s) =
      servo_out ++ (if dr <? 2000 then [] else [Println (report rp f s')]) /\
    Forall (fun o => match o with Println _ => False | _ => True end)
           servo_out /\
    (dt < 500 ->
     servo_out = [] /\ angleH s' = angleH s /\ angleV s' = angleV s).
Proof.
  intros Hlt Hlr Hdt Hdr Et Er.
  assert (Ht : uint32 (now - lastTrackTime s) = dt)
    by (rewrite Et; now apply uint32_elapsed).
  assert (Hr : uint32 (now - lastReportTime s) = dr)
    by (rewrite Er; now apply uint32_elapsed).
  clear Et Er. unfold loop. rewrite Ht.
  set (s0 := {| angleH := angleH s; angleV := angleV s;
                lastTrackTime := now; lastReportTime := lastReportTime s |}).
  assert (Htrack : exists s1 out1,
            trackSun t s0 = (s1, out1) /\
            lastTrackTime s1 = now /\
            lastReportTime s1 = lastReportTime s /\
            Forall (fun o => match o with Println _ => False | _ => True end)
                   out1).
  { exists (fst (trackSun t s0)), (snd (trackSun t s0)).
    split; [now destruct (trackSun t s0)|].
    unfold trackSun. cbv zeta.
    destruct (abs _ >? TOLERANCE); destruct (abs _ >? TOLERANCE);
      cbn [fst snd lastTrackTime lastReportTime app];
      repeat split; repeat (apply Forall_cons; [exact I|]);
      apply Forall_nil. }
  destruct Htrack as (s1 & out1 & E1 & T1 & R1 & F1).
  unfold TRACK_INTERVAL, REPORT_INTERVAL.
  destruct (Z.geb_spec dt 500) as [Hge|Hlt'];
    destruct (Z.ltb_spec dt 500) as [Hlt''|Hge'']; try lia.
  - rewrite E1. rewrite R1, Hr.
    exists out1.
    destruct (Z.geb_spec dr 2000); destruct (Z.ltb_spec dr 2000); try lia;
      cbn [fst snd lastTrackTime lastReportTime];
      (split; [exact T1|]); (split; [first [reflexivity | exact R1]|]);
      (split; [reflexivity|]); (split; [exact F1|]); intros; lia.
  - rewrite Hr.
    exists [].
    destruct (Z.geb_spec dr 2000); destruct (Z.ltb_spec dr 2000); try lia;
      cbn [fst snd lastTrackTime lastReportTime angleH angleV app];
      repeat split; apply Forall_nil.
Qed.

End SketchFacts.

Lemma trackSun_exact_witness :
  let r := {| Sketch.LDR_TOP_LEFT := 800; Sketch.LDR_TOP_RIGHT := 700;
              Sketch.LDR_BOT_LEFT := 300; Sketch.LDR_BOT_RIGHT := 200;
              Sketch.DUST_PIN := 680 |} in
  Sketch.trackSun r Sketch.initial =
    ({| Sketch.angleH := 91; Sketch.angleV := 91;
        Sketch.lastTrackTime := 0; Sketch.lastReportTime := 0 |},
     [Sketch.ServoV 91; Sketch.ServoH 91]).
Proof.
  cbv zeta.
  rewrite (trackSun_exact
             {| Sketch.LDR_TOP_LEFT := 800; Sketch.LDR_TOP_RIGHT := 700;
                Sketch.LDR_BOT_LEFT := 300; Sketch.LDR_BOT_RIGHT := 200;
                Sketch.DUST_PIN := 680 |} Sketch.initial).
  - reflexivity.
  - unfold Sketch.analog. cbn. lia.
  - unfold Sketch.within_limits, Sketch.SERVO_H_MIN, Sketch.SERVO_H_MAX,
      Sketch.SERVO_V_MIN, Sketch.SERVO_V_MAX. cbn. lia.
Defined.

Lemma lightPct_range_witness :
  Sketch.lightPct
    {| Sketch.LDR_TOP_LEFT := 800; Sketch.LDR_TOP_RIGHT := 700;
       Sketch.LDR_BOT_LEFT := 300; Sketch.LDR_BOT_RIGHT := 200;
       Sketch.DUST_PIN := 680 |} = 48.
Proof.
  destruct (lightPct_range
              {| Sketch.LDR_TOP_LEFT := 800; Sketch.LDR_TOP_RIGHT := 700;
                 Sketch.LDR_BOT_LEFT := 300; Sketch.LDR_BOT_RIGHT := 200;
                 Sketch.DUST_PIN := 680 |}) as (H & _).
  - unfold Sketch.analog. cbn. lia.
  - rewrite H. reflexivity.
Defined.

Lemma loop_timing_witness :
  let r := {| Sketch.LDR_TOP_LEFT := 800; Sketch.LDR_TOP_RIGHT := 700;
              Sketch.LDR_BOT_LEFT := 300; Sketch.LDR_BOT_RIGHT := 200;
              Sketch.DUST_PIN := 680 |} in
  let f := {| Sketch.busVoltage := {| Sketch.whole := 4;
                                      Sketch.decimals := [9; 6]%nat |};
              Sketch.current_mA := {| Sketch.whole := 731;
                                      Sketch.decimals := [0; 0]%nat |};
              Sketch.power_W := {| Sketch.whole := 3;
                                   Sketch.decimals := [6; 2; 5]%nat |} |} in
  let s := {| Sketch.angleH := 90; Sketch.angleV := 90;
              Sketch.lastTrackTime := 4294967000;
              Sketch.lastReportTime := 4294966000 |} in
  Sketch.lastTrackTime (fst (Sketch.loop 704 r r f s)) = 704 /\
  Sketch.lastReportTime (fst (Sketch.loop 704 r r f s)) = 704.
Proof.
  cbv zeta.
  destruct (loop_timing 704
              {| Sketch.LDR_TOP_LEFT := 800; Sketch.LDR_TOP_RIGHT := 700;
                 Sketch.LDR_BOT_LEFT := 300; Sketch.LDR_BOT_RIGHT := 200;
                 Sketch.DUST_PIN := 680 |}
              {| Sketch.LDR_TOP_LEFT := 800; Sketch.LDR_TOP_RIGHT := 700;
                 Sketch.LDR_BOT_LEFT := 300; Sketch.LDR_BOT_RIGHT := 200;
                 Sketch.DUST_PIN := 680 |}
              {| Sketch.busVoltage := {| Sketch.whole := 4;
                                         Sketch.decimals := [9; 6]%nat |};
                 Sketch.current_mA := {| Sketch.whole := 731;
                                         Sketch.decimals := [0; 0]%nat |};
                 Sketch.power_W := {| Sketch.whole := 3;
                                      Sketch.decimals := [6; 2; 5]%nat |} |}
              {| Sketch.angleH := 90; Sketch.angleV := 90;
                 Sketch.lastTrackTime := 4294967000;
                 Sketch.lastReportTime := 4294966000 |}
              1000 2000
              ltac:(cbn; lia) ltac:(cbn; lia) ltac:(lia) ltac:(lia)
              eq_refl eq_refl)
    as (out & H1 & H2 & _).
  split; [exact H1 | exact H2].
Defined.

(* ================================================================== *)
(** ** From the sketch to the server *)
(* ================================================================== *)

Section LineFacts.

Import JSON.

(** More fuel does not change what the scanner finds. *)
Lemma tokens_mono f : forall s ts f',
  tokens f s = Done ts -> (f <= f')%nat -> tokens f' s = Done ts.
Proof.
  induction f as [|f IH]; intros s ts f' H Hf; [discriminate|].
  destruct f' as [|f']; [lia|].
  assert (Hpush : forall t r,
            push_token t (tokens f r) = Done ts ->
            push_token t (tokens f' r) = Done ts).
  { intros t r Hp. destruct (tokens f r) as [ts'| |] eqn:E; try discriminate.
    rewrite (IH r ts' f' E) by lia. exact Hp. }
  cbn [tokens] in *. destruct s as [|c r]; [exact H|].
  destruct (is_ws c); [apply IH; [exact H | lia]|].
  destruct (punctuation c); [now apply Hpush|].
  destruct (c =? 34)%N.
  { destruct (scan_string r []) as [[str rest]|]; [now apply Hpush | exact H]. }
  destruct (keyword (c :: r)) as [[t rest]|]; [now apply Hpush|].
  destruct (scan_number (c :: r)) as [[q rest]|]; [now apply Hpush | exact H].
Qed.


Lemma take_digits_stop c r :
  digit 10 c = None -> take_digits 10 (c :: r) = ([], c :: r).
Proof. intros H. cbn [take_digits]. now rewrite H. Qed.

(** The digits of a decimal numeral, read back. *)
Lemma take_digits_uint u :
  exists ds,
    (forall c r,
       digit 10 c = None ->
       take_digits 10 (lit (NilEmpty.string_of_uint u) ++ c :: r)
       = (ds, c :: r)) /\
    (forall acc,
       fold_left (fun a d => a * 10 + d) ds (Z.of_nat acc)
       = Z.of_nat (Nat.of_uint_acc u acc)) /\
    (u <> Decimal.Nil -> ds <> []) /\
    (forall t, ds = 0 :: t -> exists u', u = Decimal.D0 u').
Proof.
  induction u as [|u IH|u IH|u IH|u IH|u IH|u IH|u IH|u IH|u IH|u IH].
  1:{ exists []. split; [|repeat split; [congruence | discriminate]].
      intros c r Hc. now apply take_digits_stop. }
  all: destruct IH as (ds & Ht & Hv & _ & _);
    match goal with
    | |- context [NilEmpty.string_of_uint (?D ?v)] =>
        let x := eval vm_compute in
                   (hd 0%N (lit (NilEmpty.string_of_uint (D Decimal.Nil)))) in
        let d := eval vm_compute in (digit 10 x) in
        match d with
        | Some ?k =>
            exists (k :: ds); split;
            [ intros c r Hc;
              change (take_digits 10
                        (lit (NilEmpty.string_of_uint (D v)) ++ c :: r))
                with (let (ds', rest') :=
                        take_digits 10
                          (lit (NilEmpty.string_of_uint v) ++ c :: r) in
                      (k :: ds', rest'));
              now rewrite (Ht c r Hc)
            | split; [|split] ]
        end
    end;
    [ intros acc; cbn [fold_left Nat.of_uint_acc]; rewrite <- Hv;
      f_equal; rewrite Nat.tail_mul_spec; lia
    | discriminate
    | intros t E; first [eexists; reflexivity | discriminate E] ].
Qed.

Lemma nzhead_not_D0 d u' : Decimal.nzhead d <> Decimal.D0 u'.
Proof. induction d; cbn [Decimal.nzhead]; try discriminate; assumption. Qed.

Lemma to_uint_shape n :
  Nat.to_uint n = Decimal.D0 Decimal.Nil \/
  (Nat.to_uint n <> Decimal.Nil /\
   forall u', Nat.to_uint n <> Decimal.D0 u').
Proof.
  assert (H : Nat.to_uint n = Decimal.unorm (Nat.to_uint n)).
  { rewrite <- DecimalNat.Unsigned.to_of. now rewrite DecimalNat.Unsigned.of_to. }
  rewrite H. unfold Decimal.unorm.
  pose proof (nzhead_not_D0 (Nat.to_uint n)) as Hz.
  destruct (Decimal.nzhead (Nat.to_uint n)); [now left| |..];
    try (right; split; [discriminate | intros u'; discriminate]).
  exfalso. eapply Hz. reflexivity.
Qed.

(** The text of a natural number is a JSON integer: digits, no needless
    zero in front, and they read back as the number. *)
Lemma digits_of_nat_scan n :
  exists ds d0 t,
    (forall c r,
       digit 10 c = None ->
       take_digits 10 (digits_of_nat n ++ c :: r) = (ds, c :: r)) /\
    digits_value 10 ds = Z.of_nat n /\
    ds <> [] /\
    (forall y t', ds <> 0 :: y :: t') /\
    digits_of_nat n = d0 :: t /\
    digit 10 d0 <> None /\ (d0 =? 45)%N = false.
Proof.
  unfold digits_of_nat.
  pose proof (DecimalNat.Unsigned.of_to n) as Hn.
  destruct (to_uint_shape n) as [E | [Hnil Hzero]].
  - rewrite E in *. cbn in Hn. subst n.
    exists [0], 48%N, []. split.
    { intros c r Hc.
      change (lit (NilZero.string_of_uint (Decimal.D0 Decimal.Nil)) ++ c :: r)
        with (48%N :: c :: r).
      change (take_digits 10 (48%N :: c :: r))
        with (let (ds', rest') := take_digits 10 (c :: r) in (0 :: ds', rest')).
      now rewrite (take_digits_stop c r Hc). }
    repeat split; try reflexivity; try discriminate.
  - destruct (take_digits_uint (Nat.to_uint n))
      as (ds & Ht & Hv & Hne & Hz).
    assert (Hs : NilZero.string_of_uint (Nat.to_uint n)
                 = NilEmpty.string_of_uint (Nat.to_uint n)).
    { destruct (Nat.to_uint n); [contradiction | reflexivity ..]. }
    rewrite Hs.
    assert (Hhd : exists d0 t,
              lit (NilEmpty.string_of_uint (Nat.to_uint n)) = d0 :: t /\
              digit 10 d0 <> None /\ (d0 =? 45)%N = false).
    { destruct (Nat.to_uint n); [contradiction|..];
        cbn [NilEmpty.string_of_uint lit];
        do 2 eexists; (split; [reflexivity|]);
        (split; [discriminate | reflexivity]). }
    destruct Hhd as (d0 & t & Hd & Hdig & Hminus).
    exists ds, d0, t. split; [exact Ht|]. split.
    { pose proof (Hv 0%nat) as H0. cbn [Z.of_nat] in H0.
      unfold digits_value. rewrite H0. f_equal. exact Hn. }
    split; [now apply Hne|]. split.
    { intros y t' E. destruct (Hz _ E) as [u' Hu]. now apply (Hzero u'). }
    split; [exact Hd|]. split; assumption.
Qed.

Lemma digit10_range c : digit 10 c <> None -> (48 <= c <= 57)%N.
Proof.
  unfold digit. intros H.
  destruct ((48 <=? Z.of_N c) && (Z.of_N c <=? 57)) eqn:E.
  { apply andb_prop in E as [E1 E2].
    apply Z.leb_le in E1, E2. lia. }
  exfalso. apply H.
  destruct ((97 <=? Z.of_N c) && (Z.of_N c <=? 122)) eqn:E1.
  { apply andb_prop in E1 as [A B]. apply Z.leb_le in A, B.
    destruct (Z.ltb_spec (Z.of_N c - 87) 10); [lia | reflexivity]. }
  destruct ((65 <=? Z.of_N c) && (Z.of_N c <=? 90)) eqn:E2.
  { apply andb_prop in E2 as [A B]. apply Z.leb_le in A, B.
    destruct (Z.ltb_spec (Z.of_N c - 55) 10); [lia | reflexivity]. }
  reflexivity.
Qed.

(** A digit or a minus sign starts nothing but a number. *)
Lemma number_head d0 :
  digit 10 d0 <> None \/ d0 = 45%N ->
  is_ws d0 = false /\ punctuation d0 = None /\ (d0 =? 34)%N = false /\
  forall rest, keyword (d0 :: rest) = None.
Proof.
  intros H.
  assert (Hc : (d0 = 45 \/ d0 = 48 \/ d0 = 49 \/ d0 = 50 \/ d0 = 51 \/
                d0 = 52 \/ d0 = 53 \/ d0 = 54 \/ d0 = 55 \/ d0 = 56 \/
                d0 = 57)%N).
  { destruct H as [H | ->]; [apply digit10_range in H; lia | now left]. }
  repeat (destruct Hc as [-> | Hc]); try subst d0; repeat split.
Qed.

(** The scanner at a number. *)
Lemma tokens_number f d0 t q rest :
  digit 10 d0 <> None \/ d0 = 45%N ->
  scan_number (d0 :: t) = Some (q, rest) ->
  tokens (S f) (d0 :: t) = push_token (TNumber q) (tokens f rest).
Proof.
  intros Hd Hs. destruct (number_head d0 Hd) as (H1 & H2 & H3 & H4).
  cbn [tokens]. now rewrite H1, H2, H3, H4, Hs.
Qed.

(** What ends a number in a report: a comma or a closing brace. *)
Lemma end_of_number c :
  (c = 44 \/ c = 125)%N ->
  digit 10 c = None /\ (c =? 46)%N = false /\
  ((c =? 101) || (c =? 69))%N = false.
Proof. intros [-> | ->]; repeat split. Qed.

(** An integer, with nothing after its digits. *)
Lemma scan_number_integer s ints c r (neg : bool) :
  take_digits 10 s = (ints, c :: r) ->
  ints <> [] -> (forall y t, ints <> 0 :: y :: t) ->
  (c = 44 \/ c = 125)%N ->
  match s with x :: _ => (x =? 45)%N = false | [] => True end ->
  scan_number (if neg then 45%N :: s else s) =
    Some (inject_Z (if neg then - digits_value 10 ints
                    else digits_value 10 ints), c :: r).
Proof.
  intros Ht Hne Hz Hc Hs.
  destruct (end_of_number c Hc) as (_ & Hdot & Hexp).
  assert (Hhead : scan_number (if neg then 45%N :: s else s) =
            let (ints0, r1) := take_digits 10 s in
            match ints0 with
            | [] => None
            | 0 :: _ :: _ => None
            | _ =>
                let frac :=
                  match r1 with
                  | c0 :: r0 =>
                      if (c0 =? 46)%N then
                        match take_digits 10 r0 with
                        | ([], _) => None
                        | (fs, r') => Some (fs, r')
                        end
                      else Some ([], r1)
                  | [] => Some ([], r1)
                  end in
                match frac with
                | None => None
                | Some (fracs, r2) =>
                    match take_exponent r2 with
                    | None => None
                    | Some (e, rest) =>
                        let m := digits_value 10 (ints0 ++ fracs) in
                        Some (decimal (if neg then - m else m)
                                (e - Z.of_nat (List.length fracs)), rest)
                    end
                end
            end).
  { unfold scan_number. destruct neg; [reflexivity|].
    destruct s as [|x s']; [reflexivity|]. now rewrite Hs. }
  rewrite Hhead, Ht.
  assert (Hd : decimal (if neg then - digits_value 10 ints
                        else digits_value 10 ints) (0 - 0)
               = inject_Z (if neg then - digits_value 10 ints
                           else digits_value 10 ints)).
  { unfold decimal. cbn [Z.sub Z.opp Z.add Z.leb Z.compare].
    change (10 ^ 0) with 1. now rewrite Z.mul_1_r. }
  destruct ints as [|d [|y t]]; [contradiction | |];
    (destruct d; [try (exfalso; now apply (Hz y t)) | |]);
    cbv zeta; rewrite Hdot; cbn [take_exponent]; rewrite Hexp;
    rewrite app_nil_r; cbn [List.length Z.of_nat]; now rewrite Hd.
Qed.


Lemma take_digits_decimals ds c r :
  forallb (fun d => (d <? 10)%nat) ds = true ->
  digit 10 c = None ->
  take_digits 10 (map (fun d => (48 + N.of_nat d)%N) ds ++ c :: r)
  = (map Z.of_nat ds, c :: r).
Proof.
  intros Hds Hc. induction ds as [|d ds IH].
  - now apply take_digits_stop.
  - cbn [forallb] in Hds. apply andb_prop in Hds as [Hd Hds].
    cbn [map app take_digits]. rewrite (IH Hds).
    apply Nat.ltb_lt in Hd.
    do 10 (destruct d as [|d]; [reflexivity|]). lia.
Qed.

(** A number with decimals. *)
Lemma scan_number_fraction s ints fracs t c r :
  take_digits 10 s = (ints, 46%N :: t) ->
  ints <> [] -> (forall y t', ints <> 0 :: y :: t') ->
  take_digits 10 t = (fracs, c :: r) -> fracs <> [] ->
  (c = 44 \/ c = 125)%N ->
  match s with x :: _ => (x =? 45)%N = false | [] => True end ->
  scan_number s =
    Some (decimal (digits_value 10 (ints ++ fracs))
                  (0 - Z.of_nat (List.length fracs)), c :: r).
Proof.
  intros Ht Hne Hz Hf Hfne Hc Hs.
  destruct (end_of_number c Hc) as (_ & _ & Hexp).
  unfold scan_number.
  assert (Hhead : match s with
                  | [] => (false, s)
                  | c0 :: r0 => if (c0 =? 45)%N then (true, r0) else (false, s)
                  end = (false, s)).
  { destruct s as [|x s']; [reflexivity|]. now rewrite Hs. }
  rewrite Hhead, Ht.
  destruct ints as [|d [|y t']]; [contradiction | |];
    (destruct d; [try (exfalso; now apply (Hz y t')) | |]);
    cbv zeta; cbn [N.eqb Pos.eqb]; rewrite Hf;
    (destruct fracs as [|f0 fs]; [contradiction|]);
    cbn [take_exponent]; rewrite Hexp; reflexivity.
Qed.

(** What [print_int] shows is a JSON number with the value printed. *)
Lemma scan_print_int z :
  exists d0 t,
    Sketch.print_int z = d0 :: t /\
    (digit 10 d0 <> None \/ d0 = 45%N) /\
    forall c r,
      (c = 44 \/ c = 125)%N ->
      scan_number (Sketch.print_int z ++ c :: r) = Some (inject_Z z, c :: r).
Proof.
  unfold Sketch.print_int. destruct (Z.ltb_spec z 0) as [Hneg|Hpos].
  - destruct (digits_of_nat_scan (Z.to_nat (- z)))
      as (ds & d0 & t & Ht & Hv & Hne & Hz & Hhd & Hdig & Hminus).
    exists 45%N, (digits_of_nat (Z.to_nat (- z))).
    split; [reflexivity|]. split; [now right|]. intros c r Hc.
    destruct (end_of_number c Hc) as (Hd & _ & _).
    refine (eq_trans
              (scan_number_integer _ ds c r true (Ht c r Hd) Hne Hz Hc _) _).
    + rewrite Hhd. exact Hminus.
    + rewrite Hv. do 3 f_equal. lia.
  - destruct (digits_of_nat_scan (Z.to_nat z))
      as (ds & d0 & t & Ht & Hv & Hne & Hz & Hhd & Hdig & Hminus).
    exists d0, t. split; [exact Hhd|]. split; [now left|]. intros c r Hc.
    destruct (end_of_number c Hc) as (Hd & _ & _).
    refine (eq_trans
              (scan_number_integer _ ds c r false (Ht c r Hd) Hne Hz Hc _) _).
    + rewrite Hhd. exact Hminus.
    + rewrite Hv. do 3 f_equal. lia.
Qed.

(** What [print_float] shows is a JSON number. *)
Lemma scan_print_float k x :
  Sketch.shown (S k) x = true ->
  exists q d0 t,
    Sketch.print_float x = d0 :: t /\
    (digit 10 d0 <> None \/ d0 = 45%N) /\
    forall c r,
      (c = 44 \/ c = 125)%N ->
      scan_number (Sketch.print_float x ++ c :: r) = Some (q, c :: r).
Proof.
  intros Hx.
  unfold Sketch.shown in Hx. apply andb_prop in Hx as [Hlen Hds].
  apply Nat.eqb_eq in Hlen.
  unfold Sketch.print_float.
  set (fs := map (fun d => (48 + N.of_nat d)%N) (Sketch.decimals x)).
  destruct (digits_of_nat_scan (Sketch.whole x))
    as (ds & d0 & t & Ht & Hv & Hne & Hz & Hhd & Hdig & Hminus).
  eexists _, d0, (t ++ lit "." ++ fs). rewrite Hhd.
  split; [reflexivity|]. split; [now left|]. intros c r Hc.
  destruct (end_of_number c Hc) as (Hd & _ & _).
  pose proof (take_digits_decimals (Sketch.decimals x) c r Hds Hd) as Hf.
  fold fs in Hf.
  replace (((d0 :: t) ++ lit "." ++ fs) ++ c :: r)
    with (digits_of_nat (Sketch.whole x) ++ 46%N :: (fs ++ c :: r))
    by (rewrite Hhd, <- !app_assoc; reflexivity).
  apply (scan_number_fraction _ ds (map Z.of_nat (Sketch.decimals x))
           (fs ++ c :: r) c r (Ht 46%N (fs ++ c :: r) eq_refl) Hne Hz Hf).
  - destruct (Sketch.decimals x); [discriminate | discriminate].
  - exact Hc.
  - rewrite Hhd. exact Hminus.
Qed.

(** The scanner at a printed number, before a comma or a brace. *)
Lemma tokens_print_int z f c r :
  (c = 44 \/ c = 125)%N ->
  tokens (S f) (Sketch.print_int z ++ c :: r) =
  push_token (TNumber (inject_Z z)) (tokens f (c :: r)).
Proof.
  intros Hc. destruct (scan_print_int z) as (d0 & t & Hp & Hd & Hs).
  specialize (Hs c r Hc). rewrite Hp in *.
  now apply tokens_number.
Qed.

Lemma tokens_print_float k x :
  Sketch.shown (S k) x = true ->
  exists q, forall f c r,
    (c = 44 \/ c = 125)%N ->
    tokens (S f) (Sketch.print_float x ++ c :: r) =
    push_token (TNumber q) (tokens f (c :: r)).
Proof.
  intros Hx. destruct (scan_print_float k x Hx) as (q & d0 & t & Hp & Hd & Hs).
  exists q. intros f c r Hc. specialize (Hs c r Hc). rewrite Hp in *.
  now apply tokens_number.
Qed.


(** The scanner at the fixed parts of a report. *)
Lemma tokens_open f rest :
  tokens (S (S (S f))) (lit "{" ++ lit "'voltage':" ++ rest) =
  push_token TLBrace
    (push_token (TString (lit "voltage")) (push_token TColon (tokens f rest))).
Proof. reflexivity. Qed.

Lemma tokens_current f rest :
  tokens (S (S (S f))) (lit ",'current':" ++ rest) =
  push_token TComma
    (push_token (TString (lit "current")) (push_token TColon (tokens f rest))).
Proof. reflexivity. Qed.

Lemma tokens_power f rest :
  tokens (S (S (S f))) (lit ",'power':" ++ rest) =
  push_token TComma
    (push_token (TString (lit "power")) (push_token TColon (tokens f rest))).
Proof. reflexivity. Qed.

Lemma tokens_angleH f rest :
  tokens (S (S (S f))) (lit ",'angleH':" ++ rest) =
  push_token TComma
    (push_token (TString (lit "angleH")) (push_token TColon (tokens f rest))).
Proof. reflexivity. Qed.

Lemma tokens_angleV f rest :
  tokens (S (S (S f))) (lit ",'angleV':" ++ rest) =
  push_token TComma
    (push_token (TString (lit "angleV")) (push_token TColon (tokens f rest))).
Proof. reflexivity. Qed.

Lemma tokens_light f rest :
  tokens (S (S (S f))) (lit ",'light':" ++ rest) =
  push_token TComma
    (push_token (TString (lit "light")) (push_token TColon (tokens f rest))).
Proof. reflexivity. Qed.

Lemma tokens_dustAlert f (b : bool) rest :
  tokens (S (S (S (S f))))
    (lit ",'dustAlert':" ++ (if b then lit "true" else lit "false") ++ rest) =
  push_token TComma
    (push_token (TString (lit "dustAlert"))
       (push_token TColon
          (push_token (if b then TTrue else TFalse) (tokens f rest)))).
Proof. destruct b; reflexivity. Qed.

Lemma tokens_dustRaw f rest :
  tokens (S (S (S f))) (lit ",'dustRaw':" ++ rest) =
  push_token TComma
    (push_token (TString (lit "dustRaw")) (push_token TColon (tokens f rest))).
Proof. reflexivity. Qed.

(** The tokens of a report. *)
Lemma tokens_report r f s :
  Sketch.shown_all f = true ->
  exists q1 q2 q3,
    tokens 34 (Sketch.report r f s) =
    Done [ TLBrace;
           TString (lit "voltage"); TColon; TNumber q1; TComma;
           TString (lit "current"); TColon; TNumber q2; TComma;
           TString (lit "power"); TColon; TNumber q3; TComma;
           TString (lit "angleH"); TColon;
           TNumber (inject_Z (Sketch.angleH s)); TComma;
           TString (lit "angleV"); TColon;
           TNumber (inject_Z (Sketch.angleV s)); TComma;
           TString (lit "light"); TColon;
           TNumber (inject_Z (Sketch.lightPct r)); TComma;
           TString (lit "dustAlert"); TColon;
           (if Sketch.dustAlert r then TTrue else TFalse); TComma;
           TString (lit "dustRaw"); TColon;
           TNumber (inject_Z (Sketch.DUST_PIN r));
           TRBrace ].
Proof.
  intros Hf. unfold Sketch.shown_all in Hf.
  apply andb_prop in Hf as [Hf H3]. apply andb_prop in Hf as [H1 H2].
  destruct (tokens_print_float _ _ H1) as [q1 T1].
  destruct (tokens_print_float _ _ H2) as [q2 T2].
  destruct (tokens_print_float _ _ H3) as [q3 T3].
  exists q1, q2, q3. unfold Sketch.report.
  rewrite tokens_open.
  change (lit ",'current':" ++ ?x) with (44%N :: (lit "'current':" ++ x)).
  rewrite T1 by now left.
  change (44%N :: (lit "'current':" ++ ?x)) with (lit ",'current':" ++ x).
  rewrite tokens_current.
  change (lit ",'power':" ++ ?x) with (44%N :: (lit "'power':" ++ x)).
  rewrite T2 by now left.
  change (44%N :: (lit "'power':" ++ ?x)) with (lit ",'power':" ++ x).
  rewrite tokens_power.
  change (lit ",'angleH':" ++ ?x) with (44%N :: (lit "'angleH':" ++ x)).
  rewrite T3 by now left.
  change (44%N :: (lit "'angleH':" ++ ?x)) with (lit ",'angleH':" ++ x).
  rewrite tokens_angleH.
  change (lit ",'angleV':" ++ ?x) with (44%N :: (lit "'angleV':" ++ x)).
  rewrite tokens_print_int by now left.
  change (44%N :: (lit "'angleV':" ++ ?x)) with (lit ",'angleV':" ++ x).
  rewrite tokens_angleV.
  change (lit ",'light':" ++ ?x) with (44%N :: (lit "'light':" ++ x)).
  rewrite tokens_print_int by now left.
  change (44%N :: (lit "'light':" ++ ?x)) with (lit ",'light':" ++ x).
  rewrite tokens_light.
  change (lit ",'dustAlert':" ++ ?x) with (44%N :: (lit "'dustAlert':" ++ x)).
  rewrite tokens_print_int by now left.
  change (44%N :: (lit "'dustAlert':" ++ ?x)) with (lit ",'dustAlert':" ++ x).
  rewrite tokens_dustAlert, tokens_dustRaw.
  change (lit "}") with (125%N :: []).
  rewrite tokens_print_int by now right.
  reflexivity.
Qed.


Lemma trimStart_id l :
  match l with c :: _ => is_space c = false | [] => True end ->
  trimStart l = l.
Proof. destruct l as [|c l]; [reflexivity|]. cbn. now intros ->. Qed.

Lemma trimEnd_id m d : is_space d = false -> trimEnd (m ++ [d]) = m ++ [d].
Proof.
  intros Hd. unfold trimEnd. rewrite rev_app_distr. cbn [rev app].
  rewrite trimStart_id by exact Hd. cbn [rev]. now rewrite rev_involutive.
Qed.

(** What the server's parser hands over for a report trims to the report
    itself. *)
Lemma trim_received r f s :
  trim (Sketch.received (Sketch.report r f s)) = Sketch.report r f s.
Proof.
  unfold Sketch.received.
  change (Sketch.report r f s ++ [13%N])
    with ([] ++ Sketch.report r f s ++ [13%N]).
  rewrite (trim_pad [] (Sketch.report r f s) [13%N] eq_refl eq_refl).
  unfold trim. rewrite trimStart_id by reflexivity.
  assert (H : exists m, Sketch.report r f s = m ++ [125%N]).
  { unfold Sketch.report. eexists. rewrite !app_assoc. reflexivity. }
  destruct H as [m ->]. now apply trimEnd_id.
Qed.

(** A report decodes as an object with the eight telemetry fields. *)
Lemma parse_report r f s :
  Sketch.shown_all f = true ->
  exists q1 q2 q3,
    JSON.parse (Sketch.report r f s) =
    Ok (VObj [ (lit "voltage", number q1); (lit "current", number q2);
               (lit "power", number q3);
               (lit "angleH", integer (Sketch.angleH s));
               (lit "angleV", integer (Sketch.angleV s));
               (lit "light", integer (Sketch.lightPct r));
               (lit "dustAlert", VBool (Sketch.dustAlert r));
               (lit "dustRaw", integer (Sketch.DUST_PIN r)) ]).
Proof.
  intros Hf. destruct (tokens_report r f s Hf) as (q1 & q2 & q3 & Ht).
  exists q1, q2, q3. unfold JSON.parse.
  assert (Hlen : (34 <= S (List.length (Sketch.report r f s)))%nat).
  { unfold Sketch.report. rewrite !length_app.
    change (List.length (lit "{")) with 1%nat.
    change (List.length (lit "'voltage':")) with 10%nat.
    change (List.length (lit ",'current':")) with 11%nat.
    change (List.length (lit ",'power':")) with 9%nat.
    change (List.length (lit ",'angleH':")) with 10%nat.
    lia. }
  rewrite (tokens_mono _ _ _ _ Ht Hlen).
  destruct (Sketch.dustAlert r); reflexivity.
Qed.

(** X20.  Every line that [reportData] prints is one that the server takes
    as a reading: whatever the sensors read and the angles are, the line
    as the server's parser hands it over decodes as an object with the
    eight telemetry fields, each of its type and none called [status] or
    [error]; [angleH], [angleV], [light], [dustAlert] and [dustRaw] are the
    values the sketch printed; and the handler stores the object, stamped,
    as the latest reading and as the newest history entry. *)
Theorem report_is_taken r f s now st :
  Sketch.shown_all f = true ->
  let line := Sketch.received (Sketch.report r f s) in
  exists q1 q2 q3,
    let o := [ (lit "voltage", number q1); (lit "current", number q2);
               (lit "power", number q3);
               (lit "angleH", integer (Sketch.angleH s));
               (lit "angleV", integer (Sketch.angleV s));
               (lit "light", integer (Sketch.lightPct r));
               (lit "dustAlert", VBool (Sketch.dustAlert r));
               (lit "dustRaw", integer (Sketch.DUST_PIN r)) ] in
    JSON.parse (trim line) = Ok (VObj o) /\
    Spec.telemetry_shape o = true /\
    fst (initSerial_onData Firebase.storable line now st)
      = Accepted (Spec.stamp o now) /\
    latestReading (snd (initSerial_onData Firebase.storable line now st))
      = Spec.stamp o now /\
    Firebase.history
      (db (snd (initSerial_onData Firebase.storable line now st)))
      = Firebase.history (db st) ++ [Spec.stamp o now].
Proof.
  intros Hf line. destruct (parse_report r f s Hf) as (q1 & q2 & q3 & Hp).
  exists q1, q2, q3. cbv zeta.
  assert (Hline : JSON.parse (trim line) = Ok (VObj
            [ (lit "voltage", number q1); (lit "current", number q2);
              (lit "power", number q3);
              (lit "angleH", integer (Sketch.angleH s));
              (lit "angleV", integer (Sketch.angleV s));
              (lit "light", integer (Sketch.lightPct r));
              (lit "dustAlert", VBool (Sketch.dustAlert r));
              (lit "dustRaw", integer (Sketch.DUST_PIN r)) ])).
  { subst line. rewrite trim_received. exact Hp. }
  split; [exact Hline|]. split; [reflexivity|].
  rewrite (initSerial_onData_object Firebase.storable line now st _ Hline).
  repeat split.
Qed.

End LineFacts.

Lemma report_is_taken_witness :
  let r := {| Sketch.LDR_TOP_LEFT := 800; Sketch.LDR_TOP_RIGHT := 700;
              Sketch.LDR_BOT_LEFT := 300; Sketch.LDR_BOT_RIGHT := 200;
              Sketch.DUST_PIN := 680 |} in
  let f := {| Sketch.busVoltage := {| Sketch.whole := 4;
                                      Sketch.decimals := [9; 6]%nat |};
              Sketch.current_mA := {| Sketch.whole := 731;
                                      Sketch.decimals := [0; 0]%nat |};
              Sketch.power_W := {| Sketch.whole := 3;
                                   Sketch.decimals := [6; 2; 5]%nat |} |} in
  let line := Sketch.received (Sketch.report r f Sketch.initial) in
  exists data,
    fst (initSerial_onData Firebase.storable line 7 (initial 0))
      = Accepted data /\
    lookup_in data (lit "angleH") = integer 90 /\
    lookup_in data (lit "light") = integer 48 /\
    lookup_in data (lit "timestamp") = integer 7.
Proof.
  cbv zeta.
  destruct (report_is_taken
              {| Sketch.LDR_TOP_LEFT := 800; Sketch.LDR_TOP_RIGHT := 700;
                 Sketch.LDR_BOT_LEFT := 300; Sketch.LDR_BOT_RIGHT := 200;
                 Sketch.DUST_PIN := 680 |}
              {| Sketch.busVoltage := {| Sketch.whole := 4;
                                         Sketch.decimals := [9; 6]%nat |};
                 Sketch.current_mA := {| Sketch.whole := 731;
                                         Sketch.decimals := [0; 0]%nat |};
                 Sketch.power_W := {| Sketch.whole := 3;
                                      Sketch.decimals := [6; 2; 5]%nat |} |}
              Sketch.initial 7 (initial 0) eq_refl)
    as (q1 & q2 & q3 & _ & _ & H & _).
  eexists. split; [exact H|]. repeat split.
Defined.

(* ================================================================== *)
(** ** More clouds, less power *)
(* ================================================================== *)

Section MonotoneFacts.

Variable client_accepts : value -> bool.





End MonotoneFacts.


(* ================================================================== *)
(** ** The sketch with one servo *)
(* ================================================================== *)

Section SingleAxisFacts.

Import JSON.

Lemma single_loop_limits m m' r f s :
  0 <= SingleAxis.pos (fst (SingleAxis.loop m m' r f s)) <= 180 /\
  Forall SingleAxis.allowed (snd (SingleAxis.loop m m' r f s)).
Proof.
  unfold SingleAxis.loop. cbv zeta.
  match goal with
  | |- context [Sketch.constrain ?a 0 180] =>
      pose proof (constrain_range a 0 180 ltac:(lia)) as H;
      set (p := Sketch.constrain a 0 180) in *
  end.
  destruct (Sketch.uint32 _ >=? 2000); cbn [fst snd SingleAxis.pos];
    (split; [exact H|]);
    repeat (apply Forall_cons; [first [exact H | exact I]|]);
    apply Forall_nil.
Qed.

Lemma single_run_limits passes : forall s out,
  0 <= SingleAxis.pos s <= 180 -> Forall SingleAxis.allowed out ->
  let r := fold_left
             (fun acc p =>
                let '(s', o) :=
                  SingleAxis.loop (SingleAxis.at_test p)
                    (SingleAxis.at_assignment p) (SingleAxis.read p)
                    (SingleAxis.floats p) (fst acc) in
                (s', snd acc ++ o))
             passes (s, out) in
  0 <= SingleAxis.pos (fst r) <= 180 /\ Forall SingleAxis.allowed (snd r).
Proof.
  induction passes as [|p passes IH]; intros s out Hs Hout.
  - now split.
  - cbn [fold_left fst snd].
    destruct (single_loop_limits (SingleAxis.at_test p)
                (SingleAxis.at_assignment p) (SingleAxis.read p)
                (SingleAxis.floats p) s) as [H1 H2].
    destruct (SingleAxis.loop _ _ _ _ s) as [s' o]. cbn [fst snd] in *.
    apply IH; [exact H1|]. apply Forall_app. now split.
Qed.

(** X22.  In the sketch with one servo the position stays between 0 and
    180 from power-up on, whatever the sensors read, and the servo is never
    told an angle outside that range. *)
Theorem single_axis_within_limits passes :
  0 <= SingleAxis.pos (fst (SingleAxis.run passes SingleAxis.initial)) <= 180 /\
  Forall SingleAxis.allowed (snd (SingleAxis.run passes SingleAxis.initial)).
Proof.
  apply (single_run_limits passes SingleAxis.initial []);
    [cbn; lia | apply Forall_nil].
Qed.

Lemma tokens_ldrLeft f rest :
  tokens (S (S (S f))) (lit ",'ldrLeft':" ++ rest) =
  push_token TComma
    (push_token (TString (lit "ldrLeft")) (push_token TColon (tokens f rest))).
Proof. reflexivity. Qed.

Lemma tokens_ldrRight f rest :
  tokens (S (S (S f))) (lit ",'ldrRight':" ++ rest) =
  push_token TComma
    (push_token (TString (lit "ldrRight")) (push_token TColon (tokens f rest))).
Proof. reflexivity. Qed.

Lemma tokens_diff f rest :
  tokens (S (S (S f))) (lit ",'diff':" ++ rest) =
  push_token TComma
    (push_token (TString (lit "diff")) (push_token TColon (tokens f rest))).
Proof. reflexivity. Qed.

Lemma tokens_single_report r f pos :
  Sketch.shown_all f = true ->
  exists q1 q2 q3,
    tokens 46 (SingleAxis.report r f pos) =
    Done [ TLBrace;
           TString (lit "voltage"); TColon; TNumber q1; TComma;
           TString (lit "current"); TColon; TNumber q2; TComma;
           TString (lit "power"); TColon; TNumber q3; TComma;
           TString (lit "angleH"); TColon; TNumber (inject_Z pos); TComma;
           TString (lit "angleV"); TColon; TNumber (inject_Z 90); TComma;
           TString (lit "light"); TColon;
           TNumber (inject_Z (SingleAxis.lightPct r)); TComma;
           TString (lit "dustAlert"); TColon;
           (if SingleAxis.dustAlert r then TTrue else TFalse); TComma;
           TString (lit "dustRaw"); TColon;
           TNumber (inject_Z (SingleAxis.dustPin r)); TComma;
           TString (lit "ldrLeft"); TColon;
           TNumber (inject_Z (SingleAxis.ldrLeft r)); TComma;
           TString (lit "ldrRight"); TColon;
           TNumber (inject_Z (SingleAxis.ldrRight r)); TComma;
           TString (lit "diff"); TColon;
           TNumber (inject_Z (SingleAxis.diff r));
           TRBrace ].
Proof.
  intros Hf. unfold Sketch.shown_all in Hf.
  apply andb_prop in Hf as [Hf H3]. apply andb_prop in Hf as [H1 H2].
  destruct (tokens_print_float _ _ H1) as [q1 T1].
  destruct (tokens_print_float _ _ H2) as [q2 T2].
  destruct (tokens_print_float _ _ H3) as [q3 T3].
  exists q1, q2, q3. unfold SingleAxis.report.
  rewrite tokens_open.
  change (lit ",'current':" ++ ?x) with (44%N :: (lit "'current':" ++ x)).
  rewrite T1 by now left.
  change (44%N :: (lit "'current':" ++ ?x)) with (lit ",'current':" ++ x).
  rewrite tokens_current.
  change (lit ",'power':" ++ ?x) with (44%N :: (lit "'power':" ++ x)).
  rewrite T2 by now left.
  change (44%N :: (lit "'power':" ++ ?x)) with (lit ",'power':" ++ x).
  rewrite tokens_power.
  change (lit ",'angleH':" ++ ?x) with (44%N :: (lit "'angleH':" ++ x)).
  rewrite T3 by now left.
  change (44%N :: (lit "'angleH':" ++ ?x)) with (lit ",'angleH':" ++ x).
  rewrite tokens_angleH.
  change (lit ",'angleV':" ++ ?x) with (44%N :: (lit "'angleV':" ++ x)).
  rewrite tokens_print_int by now left.
  change (44%N :: (lit "'angleV':" ++ ?x)) with (lit ",'angleV':" ++ x).
  rewrite tokens_angleV.
  change (lit ",'light':" ++ ?x) with (44%N :: (lit "'light':" ++ x)).
  rewrite tokens_print_int by now left.
  change (44%N :: (lit "'light':" ++ ?x)) with (lit ",'light':" ++ x).
  rewrite tokens_light.
  change (lit ",'dustAlert':" ++ ?x) with (44%N :: (lit "'dustAlert':" ++ x)).
  rewrite tokens_print_int by now left.
  change (44%N :: (lit "'dustAlert':" ++ ?x)) with (lit ",'dustAlert':" ++ x).
  rewrite tokens_dustAlert, tokens_dustRaw.
  change (lit ",'ldrLeft':" ++ ?x) with (44%N :: (lit "'ldrLeft':" ++ x)).
  rewrite tokens_print_int by now left.
  change (44%N :: (lit "'ldrLeft':" ++ ?x)) with (lit ",'ldrLeft':" ++ x).
  rewrite tokens_ldrLeft.
  change (lit ",'ldrRight':" ++ ?x) with (44%N :: (lit "'ldrRight':" ++ x)).
  rewrite tokens_print_int by now left.
  change (44%N :: (lit "'ldrRight':" ++ ?x)) with (lit ",'ldrRight':" ++ x).
  rewrite tokens_ldrRight.
  change (lit ",'diff':" ++ ?x) with (44%N :: (lit "'diff':" ++ x)).
  rewrite tokens_print_int by now left.
  change (44%N :: (lit "'diff':" ++ ?x)) with (lit ",'diff':" ++ x).
  rewrite tokens_diff.
  change (lit "}") with (125%N :: []).
  rewrite tokens_print_int by now right.
  reflexivity.
Qed.

Lemma trim_single_received r f pos :
  trim (Sketch.received (SingleAxis.report r f pos))
  = SingleAxis.report r f pos.
Proof.
  unfold Sketch.received.
  change (SingleAxis.report r f pos ++ [13%N])
    with ([] ++ SingleAxis.report r f pos ++ [13%N]).
  rewrite (trim_pad [] (SingleAxis.report r f pos) [13%N] eq_refl eq_refl).
  unfold trim. rewrite trimStart_id by reflexivity.
  assert (H : exists m, SingleAxis.report r f pos = m ++ [125%N]).
  { unfold SingleAxis.report. eexists. rewrite !app_assoc. reflexivity. }
  destruct H as [m ->]. now apply trimEnd_id.
Qed.

(** X23.  The lines of the sketch with one servo are taken as readings
    too.  Such a line has three fields more than the reading of the
    schema, [ldrLeft], [ldrRight] and [diff], of which [diff] is negative
    when the right sensor reads more; the server stores them with the
    rest. *)
Theorem single_report_is_taken r f pos now st :
  Sketch.shown_all f = true ->
  let line := Sketch.received (SingleAxis.report r f pos) in
  exists q1 q2 q3,
    let o := [ (lit "voltage", number q1); (lit "current", number q2);
               (lit "power", number q3);
               (lit "angleH", integer pos);
               (lit "angleV", integer 90);
               (lit "light", integer (SingleAxis.lightPct r));
               (lit "dustAlert", VBool (SingleAxis.dustAlert r));
               (lit "dustRaw", integer (SingleAxis.dustPin r));
               (lit "ldrLeft", integer (SingleAxis.ldrLeft r));
               (lit "ldrRight", integer (SingleAxis.ldrRight r));
               (lit "diff", integer (SingleAxis.diff r)) ] in
    JSON.parse (trim line) = Ok (VObj o) /\
    Spec.telemetry_shape o = true /\
    fst (initSerial_onData Firebase.storable line now st)
      = Accepted (Spec.stamp o now) /\
    latestReading (snd (initSerial_onData Firebase.storable line now st))
      = Spec.stamp o now /\
    Firebase.history
      (db (snd (initSerial_onData Firebase.storable line now st)))
      = Firebase.history (db st) ++ [Spec.stamp o now].
Proof.
  intros Hf line.
  destruct (tokens_single_report r f pos Hf) as (q1 & q2 & q3 & Ht).
  exists q1, q2, q3. cbv zeta.
  assert (Hline : JSON.parse (trim line) = Ok (VObj
            [ (lit "voltage", number q1); (lit "current", number q2);
              (lit "power", number q3);
              (lit "angleH", integer pos);
              (lit "angleV", integer 90);
              (lit "light", integer (SingleAxis.lightPct r));
              (lit "dustAlert", VBool (SingleAxis.dustAlert r));
              (lit "dustRaw", integer (SingleAxis.dustPin r));
              (lit "ldrLeft", integer (SingleAxis.ldrLeft r));
              (lit "ldrRight", integer (SingleAxis.ldrRight r));
              (lit "diff", integer (SingleAxis.diff r)) ])).
  { subst line. rewrite trim_single_received. unfold JSON.parse.
    assert (Hlen : (46 <= S (List.length (SingleAxis.report r f pos)))%nat).
    { unfold SingleAxis.report. rewrite !length_app.
      change (List.length (lit "{")) with 1%nat.
      change (List.length (lit "'voltage':")) with 10%nat.
      change (List.length (lit ",'current':")) with 11%nat.
      change (List.length (lit ",'power':")) with 9%nat.
      change (List.length (lit ",'angleH':")) with 10%nat.
      change (List.length (lit ",'angleV':")) with 10%nat.
      lia. }
    rewrite (tokens_mono _ _ _ _ Ht Hlen).
    destruct (SingleAxis.dustAlert r); reflexivity. }
  split; [exact Hline|]. split; [reflexivity|].
  rewrite (initSerial_onData_object Firebase.storable line now st _ Hline).
  repeat split.
Qed.

End SingleAxisFacts.

Lemma single_report_is_taken_witness :
  let r := {| SingleAxis.ldrLeft := 300; SingleAxis.ldrRight := 700;
              SingleAxis.dustPin := 150 |} in
  let f := {| Sketch.busVoltage := {| Sketch.whole := 4;
                                      Sketch.decimals := [9; 6]%nat |};
              Sketch.current_mA := {| Sketch.whole := 731;
                                      Sketch.decimals := [0; 0]%nat |};
              Sketch.power_W := {| Sketch.whole := 3;
                                   Sketch.decimals := [6; 2; 5]%nat |} |} in
  let line := Sketch.received (SingleAxis.report r f 91) in
  exists data,
    fst (initSerial_onData Firebase.storable line 7 (initial 0))
      = Accepted data /\
    lookup_in data (lit "diff") = integer (-400) /\
    lookup_in data (lit "dustAlert") = VBool true.
Proof.
  cbv zeta.
  destruct (single_report_is_taken
              {| SingleAxis.ldrLeft := 300; SingleAxis.ldrRight := 700;
                 SingleAxis.dustPin := 150 |}
              {| Sketch.busVoltage := {| Sketch.whole := 4;
                                         Sketch.decimals := [9; 6]%nat |};
                 Sketch.current_mA := {| Sketch.whole := 731;
                                         Sketch.decimals := [0; 0]%nat |};
                 Sketch.power_W := {| Sketch.whole := 3;
                                      Sketch.decimals := [6; 2; 5]%nat |} |}
              91 7 (initial 0) eq_refl)
    as (q1 & q2 & q3 & _ & _ & H & _).
  eexists. split; [exact H|]. repeat split.
Defined.
